(** * smartalloc, examples/computing.py: blade pools, tasks and their constraints

    A shallow embedding of [examples/computing.py].  The Python program
    allocates solver variables ([sa.Real()], [sa.Int()], [sa.Bool()]), stores
    them in class and instance attributes, and builds constraint objects out of
    them.  Objects live in a store and are passed by reference; every function
    of the source is a computation over that store which either returns a
    value or raises a Python exception. *)

From Stdlib Require Import List ZArith QArith Bool Lia Sorted Permutation.
Import ListNotations.

Set Implicit Arguments.
#[local] Set Warnings "-register-all".

(** ** Solver variables and constraint objects *)

(** The three variable domains of the library. *)
Inductive sort : Type := SReal | SInt | SBool.

(** A variable object: its domain and the serial number of its creation.
    Two calls of a variable constructor never give the same object. *)
Record var : Type := Var { vsort : sort; vid : nat }.

(** The objects the library's combinators build.  [EList] is a Python list
    of such objects handed over as ONE argument; [ESum], [EAll] and [EAny]
    carry the positional arguments of the call. *)
Inductive expr : Type :=
| EVar (v : var)
| EConst (q : Q)
| ETrue
| EList (items : list expr)
| EIf (c a b : expr)
| ESum (args : list expr)
| ELe (a b : expr)
| EGe (a b : expr)
| EEq (a b : expr)
| EAll (args : list expr)
| EAny (args : list expr).

(** ** Exceptions, results and the store *)

(** [IndexError] and [AssertionError] are what the source can raise on the
    inputs considered here.  [ConfigurationError] is the name the
    specification gives to configuration failures; no path of the source
    raises it.  [NoSuchObject] is the model's answer for a reference that
    denotes no object of the store, which Python itself cannot produce. *)
Inductive exn : Type :=
| IndexError
| AssertionError
| ConfigurationError
| NoSuchObject.

Inductive result (A : Type) : Type :=
| Ok (a : A)
| Raise (e : exn).
Arguments Raise {A} e.

(** The class object made by one call of [define_blade]. *)
Module BladeClass.
Record t : Type := Make { num_tasks : Z; cpu : list var; mem : list var }.
End BladeClass.

(** A [Blade] instance; [type] is the reference of its class. *)
Module BladeObj.
Record t : Type :=
  Make { type : nat; num_cpu : Q; total_mem : Z; running : list var }.
End BladeObj.

(** A [Task] instance. *)
Module TaskObj.
Record t : Type := Make { id : Z; cpu : Q; mem : Z }.
End TaskObj.

(** The store: the serial number of the next variable and the objects made
    so far.  A reference is the position of the object in its table. *)
Record world : Type := World {
  next_var : nat;
  classes : list BladeClass.t;
  blades : list BladeObj.t;
  tasks : list TaskObj.t
}.

Definition empty_world : world := World 0 [] [] [].

(** Computations: a result and the store afterwards.  What was written
    before an exception stays written. *)
Definition M (A : Type) : Type := world -> result A * world.

Definition ret {A} (a : A) : M A := fun w => (Ok a, w).
Definition raise {A} (e : exn) : M A := fun w => (Raise e, w).
Definition bind {A B} (m : M A) (f : A -> M B) : M B :=
  fun w => match m w with
           | (Ok a, w') => f a w'
           | (Raise e, w') => (Raise e, w')
           end.

Notation "x <- m ;; k" := (bind m (fun x => k))
  (at level 61, m at next level, right associativity).

(** A list comprehension [[f x for x in l]]. *)
Fixpoint mapM {A B} (f : A -> M B) (l : list A) : M (list B) :=
  match l with
  | [] => ret []
  | x :: l' => y <- f x ;; ys <- mapM f l' ;; ret (y :: ys)
  end.

(** [range(n)]: empty for [n <= 0]. *)
Definition range (n : Z) : list Z := map Z.of_nat (seq 0 (Z.to_nat n)).

(** [l[i]] on a Python list: indices [0 .. len-1] count from the front,
    [-len .. -1] from the back, anything else raises [IndexError]. *)
Definition getitem {A} (l : list A) (i : Z) : M A :=
  let len := Z.of_nat (length l) in
  let j := if (i <? 0)%Z then (i + len)%Z else i in
  if ((0 <=? j)%Z && (j <? len)%Z)%bool
  then match nth_error l (Z.to_nat j) with
       | Some a => ret a
       | None => raise IndexError
       end
  else raise IndexError.

(** Reading an object through its reference. *)
Definition deref {A} (table : world -> list A) (r : nat) : M A :=
  fun w => match nth_error (table w) r with
           | Some o => (Ok o, w)
           | None => (Raise NoSuchObject, w)
           end.

Definition get_class : nat -> M BladeClass.t := deref classes.
Definition get_blade : nat -> M BladeObj.t := deref blades.
Definition get_task : nat -> M TaskObj.t := deref tasks.

(** Creating objects. *)
Definition new_var (s : sort) : M var :=
  fun w => (Ok (Var s (next_var w)),
            World (S (next_var w)) (classes w) (blades w) (tasks w)).

Definition new_class (c : BladeClass.t) : M nat :=
  fun w => (Ok (length (classes w)),
            World (next_var w) (classes w ++ [c]) (blades w) (tasks w)).

Definition new_blade (b : BladeObj.t) : M nat :=
  fun w => (Ok (length (blades w)),
            World (next_var w) (classes w) (blades w ++ [b]) (tasks w)).

Definition new_task (t : TaskObj.t) : M nat :=
  fun w => (Ok (length (tasks w)),
            World (next_var w) (classes w) (blades w) (tasks w ++ [t])).

(** ** The library's constructors, as the source calls them *)

(** The library is not part of this file: a variable constructor hands out
    the next variable, and a combinator is represented by the call that
    built the object. *)
Module sa.
Definition Real : M var := new_var SReal.
Definition Int : M var := new_var SInt.
Definition Bool : M var := new_var SBool.
Definition If (c a b : expr) : expr := EIf c a b.
Definition sum (args : list expr) : expr := ESum args.
Definition all (args : list expr) : expr := EAll args.
Definition any (args : list expr) : expr := EAny args.
End sa.

(** ** [define_blade] and the [Blade] class *)

(** [define_blade(num_tasks)]: the class body allocates one real and one
    integer variable per slot, in this order, and the class is returned. *)
Definition define_blade (num_tasks : Z) : M nat :=
  cpu <- mapM (fun _ => sa.Real) (range num_tasks) ;;
  mem <- mapM (fun _ => sa.Int) (range num_tasks) ;;
  new_class (BladeClass.Make num_tasks cpu mem).

Module Blade.

(** [Blade(num_cpu, total_mem)] for the class [cls]. *)
Definition __init__ (cls : nat) (num_cpu : Q) (total_mem : Z) : M nat :=
  c <- get_class cls ;;
  running <- mapM (fun _ => sa.Bool) (range (BladeClass.num_tasks c)) ;;
  new_blade (BladeObj.Make cls num_cpu total_mem running).

(** [self._cond(i, rsrc)]. *)
Definition _cond (self : nat) (i : Z) (rsrc : list var) : M expr :=
  b <- get_blade self ;;
  r <- getitem (BladeObj.running b) i ;;
  x <- getitem rsrc i ;;
  ret (sa.If (EVar r) (EVar x) (EConst 0)).

(** [self._cond_cpu(i)]; [self.cpu] is the class attribute. *)
Definition _cond_cpu (self : nat) (i : Z) : M expr :=
  b <- get_blade self ;;
  c <- get_class (BladeObj.type b) ;;
  _cond self i (BladeClass.cpu c).

Definition _cond_mem (self : nat) (i : Z) : M expr :=
  b <- get_blade self ;;
  c <- get_class (BladeObj.type b) ;;
  _cond self i (BladeClass.mem c).

(** [self.get_constraints()].  The CPU terms are passed to [sa.sum]
    unpacked, the memory terms as one list. *)
Definition get_constraints (self : nat) : M expr :=
  b <- get_blade self ;;
  c <- get_class (BladeObj.type b) ;;
  cpus <- mapM (_cond_cpu self) (range (BladeClass.num_tasks c)) ;;
  mems <- mapM (_cond_mem self) (range (BladeClass.num_tasks c)) ;;
  ret (sa.all
         [ELe (sa.sum cpus) (EConst (BladeObj.num_cpu b));
          ELe (sa.sum [EList mems])
              (EConst (inject_Z (BladeObj.total_mem b)))]).

(** [cls.get_global_constraints()], a class method. *)
Definition get_global_constraints (cls : nat) : M expr :=
  c <- get_class cls ;;
  cs <- mapM (fun i => x <- getitem (BladeClass.cpu c) i ;;
                       ret (EGe (EVar x) (EConst 0)))
             (range (BladeClass.num_tasks c)) ;;
  ms <- mapM (fun i => x <- getitem (BladeClass.mem c) i ;;
                       ret (EGe (EVar x) (EConst 0)))
             (range (BladeClass.num_tasks c)) ;;
  ret (sa.all (cs ++ ms)).

End Blade.

(** ** The [Task] class *)
Module Task.

(** [Task(identifier, cpu_cost, mem_cost)]. *)
Definition __init__ (identifier : Z) (cpu_cost : Q) (mem_cost : Z) : M nat :=
  new_task (TaskObj.Make identifier cpu_cost mem_cost).

(** [self._assign_blade(blade)]. *)
Definition _assign_blade (self : nat) (blade : nat) : M expr :=
  b <- get_blade blade ;;
  t <- get_task self ;;
  r <- getitem (BladeObj.running b) (TaskObj.id t) ;;
  ret (sa.all [EEq (EVar r) ETrue]).

(** [self._assign_blades(blades)]. *)
Definition _assign_blades (self : nat) (blades : list nat) : M expr :=
  cs <- mapM (_assign_blade self) blades ;;
  ret (sa.any cs).

(** [self.get_constraints(blades)].  The class is taken from the first
    candidate; the arguments of [sa.all] are evaluated left to right. *)
Definition get_constraints (self : nat) (blades : list nat) : M expr :=
  b0 <- getitem blades 0 ;;
  b <- get_blade b0 ;;
  let Blade := BladeObj.type b in
  c <- get_class Blade ;;
  t <- get_task self ;;
  x <- getitem (BladeClass.cpu c) (TaskObj.id t) ;;
  y <- getitem (BladeClass.mem c) (TaskObj.id t) ;;
  placed <- _assign_blades self blades ;;
  ret (sa.all [EEq (EVar x) (EConst (TaskObj.cpu t));
               EEq (EVar y) (EConst (inject_Z (TaskObj.mem t)));
               placed]).

End Task.

(** ** [main] *)

(** What a variable is mapped to by the allocation the solver returns. *)
Inductive value : Type := VBool (b : bool) | VNum (q : Q).

Definition assignment : Type := var -> value.

(** Python truth of a value, as the [if] of a comprehension tests it. *)
Definition truthy (v : value) : bool :=
  match v with
  | VBool b => b
  | VNum q => negb (Qeq_bool q 0)
  end.

(** [[x for x in l if p(x)]]. *)
Fixpoint filterM {A} (p : A -> M bool) (l : list A) : M (list A) :=
  match l with
  | [] => ret []
  | x :: l' =>
      keep <- p x ;;
      xs <- filterM p l' ;;
      ret (if keep then x :: xs else xs)
  end.

(** The list [worked_per_blade] of [main]. *)
Definition worked_per_blade (alloc : assignment) (blades : list nat)
    (num_tasks : Z) : M (list (list Z)) :=
  mapM (fun blade =>
          filterM (fun i =>
                     b <- get_blade blade ;;
                     r <- getitem (BladeObj.running b) i ;;
                     ret (truthy (alloc r)))
                  (range num_tasks))
       blades.

Section Main.

(** [sa.allocate] belongs to the library, not to this file: it is a
    parameter of [main]. *)
Variable allocate : list expr -> list expr -> M (assignment * Z).

(** The body of [main] for given values of its local constants, up to the
    call of the solver: the blades and the two constraint collections. *)
Definition build (num_blades : Z) (num_cpus_per_blade : Q)
    (total_mem_per_blade : Z) (task_cpu : list Q) (task_mem : list Z)
    : M (list nat * list expr * list expr) :=
  let num_tasks := Z.of_nat (length task_cpu) in
  if negb (length task_cpu =? length task_mem)%nat
  then raise AssertionError
  else
    tasks <- mapM (fun i => c <- getitem task_cpu i ;;
                            m <- getitem task_mem i ;;
                            Task.__init__ i c m)
                  (range num_tasks) ;;
    Blade <- define_blade num_tasks ;;
    blades <- mapM (fun _ => Blade.__init__ Blade num_cpus_per_blade
                                            total_mem_per_blade)
                   (range num_blades) ;;
    g <- Blade.get_global_constraints Blade ;;
    bs <- mapM Blade.get_constraints blades ;;
    let resource_constraints := g :: bs in
    task_constraints <-
      mapM (fun task => Task.get_constraints task blades) tasks ;;
    ret (blades, resource_constraints, task_constraints).

Definition run (num_blades : Z) (num_cpus_per_blade : Q)
    (total_mem_per_blade : Z) (task_cpu : list Q) (task_mem : list Z)
    : M (Z * list (list Z)) :=
  built <- build num_blades num_cpus_per_blade total_mem_per_blade
                 task_cpu task_mem ;;
  let '(blades, resource_constraints, task_constraints) := built in
  solved <- allocate resource_constraints task_constraints ;;
  let '(alloc, worked) := solved in
  per_blade <- worked_per_blade alloc blades
                                (Z.of_nat (length task_cpu)) ;;
  ret (worked, per_blade).

(** [main()] with the constants of the source. *)
Definition task_cpu : list Q :=
  let cycle := [4 # 10; 2 # 1; 3 # 1; 5 # 1; 7 # 1] in
  cycle ++ cycle ++ cycle ++ cycle.

Definition task_mem : list Z :=
  let cycle := [1; 12; 48; 64; 96]%Z in
  cycle ++ cycle ++ cycle ++ cycle.

Definition main : M (Z * list (list Z)) := run 4 8 128 task_cpu task_mem.

End Main.

(** ** Meaning of constraint objects *)

(** The number a value stands for in arithmetic. *)
Definition number (v : value) : Q :=
  match v with
  | VBool b => if b then 1 else 0
  | VNum q => q
  end.

Definition value_eqb (a b : value) : bool :=
  match a, b with
  | VBool x, VBool y => Bool.eqb x y
  | _, _ => Qeq_bool (number a) (number b)
  end.

Definition total (l : list Q) : Q := fold_right Qplus 0 l.

(** Modelled from the spec: the meaning of the library's combinators, which
    are not part of this file.  Following the list of the solver interface:
    conjunction and disjunction are n-ary, the conditional selects one of two
    values, the aggregate sum adds up a sequence of numeric expressions (a
    list handed over as one argument stands for its items), and the
    comparisons are those of numbers. *)
Fixpoint eval (rho : assignment) (e : expr) : value :=
  match e with
  | EVar v => rho v
  | EConst q => VNum q
  | ETrue => VBool true
  | EList items => VNum (total (map (fun a => number (eval rho a)) items))
  | EIf c a b => if truthy (eval rho c) then eval rho a else eval rho b
  | ESum args => VNum (total (map (fun a => number (eval rho a)) args))
  | ELe a b => VBool (Qle_bool (number (eval rho a)) (number (eval rho b)))
  | EGe a b => VBool (Qle_bool (number (eval rho b)) (number (eval rho a)))
  | EEq a b => VBool (value_eqb (eval rho a) (eval rho b))
  | EAll args => VBool (forallb (fun a => truthy (eval rho a)) args)
  | EAny args => VBool (existsb (fun a => truthy (eval rho a)) args)
  end.

(** An assignment satisfies a constraint. *)
Definition holds (rho : assignment) (e : expr) : bool := truthy (eval rho e).

(** The variables a constraint object mentions. *)
Fixpoint vars (e : expr) : list var :=
  match e with
  | EVar v => [v]
  | EConst _ | ETrue => []
  | EList l | ESum l | EAll l | EAny l => flat_map vars l
  | EIf c a b => vars c ++ vars a ++ vars b
  | ELe a b | EGe a b | EEq a b => vars a ++ vars b
  end.

(** Modelled from the spec: the count the solver reports, which it computes
    outside this file: the number of distinct task ids with at least one
    true [running[i]] across all blades. *)
Definition worked_count (alloc : assignment) (runnings : list (list var))
    (num_tasks : Z) : nat :=
  length (filter (fun i => existsb
                             (fun running =>
                                match nth_error running (Z.to_nat i) with
                                | Some r => truthy (alloc r)
                                | None => false
                                end) runnings)
                 (range num_tasks)).

(** * Vocabulary of the properties *)

Unset Implicit Arguments.

(** A computation that only reads: the store comes back as it went in. *)
Definition reads {A} (m : M A) : Prop := forall w, snd (m w) = w.

(** The variables [n] successive calls of a constructor return. *)
Definition fresh_vars (s : sort) (start n : nat) : list var :=
  map (Var s) (seq start n).

(** What [define_blade] returns and how it leaves the store. *)
Definition new_class_of (num_tasks : Z) (w : world) : BladeClass.t :=
  let n := Z.to_nat num_tasks in
  BladeClass.Make num_tasks
    (fresh_vars SReal (next_var w) n)
    (fresh_vars SInt (next_var w + n) n).

(** The instance [Blade.__init__] makes for the class [c] at [cls]. *)
Definition new_blade_of (cls : nat) (c : BladeClass.t) (num_cpu : Q)
    (total_mem : Z) (w : world) : BladeObj.t :=
  BladeObj.Make cls num_cpu total_mem
    (fresh_vars SBool (next_var w) (Z.to_nat (BladeClass.num_tasks c))).

(** The cost variables of a class. *)
Definition class_vars (c : BladeClass.t) : list var :=
  BladeClass.cpu c ++ BladeClass.mem c.

(** Every variable some object of the store holds. *)
Definition all_vars (w : world) : list var :=
  flat_map class_vars (classes w) ++ flat_map BladeObj.running (blades w).

(** One CPU and one memory variable per slot. *)
Definition class_ok (c : BladeClass.t) : Prop :=
  length (BladeClass.cpu c) = Z.to_nat (BladeClass.num_tasks c) /\
  length (BladeClass.mem c) = Z.to_nat (BladeClass.num_tasks c).

(** The blade's class is in the store and the blade has one [running]
    variable per slot of it. *)
Definition blade_ok (cs : list BladeClass.t) (b : BladeObj.t) : Prop :=
  exists c, nth_error cs (BladeObj.type b) = Some c /\
            length (BladeObj.running b) = Z.to_nat (BladeClass.num_tasks c).

(** The shape of every store the constructors can build: each class has one
    CPU and one memory variable per slot, each blade has one [running]
    variable per slot of its class, and no variable is held twice. *)
Record wf_world (w : world) : Prop := {
  wf_classes : Forall class_ok (classes w);
  wf_blades : Forall (blade_ok (classes w)) (blades w);
  wf_fresh : Forall (fun v => (vid v < next_var w)%nat) (all_vars w);
  wf_distinct : NoDup (all_vars w)
}.

(** The conditional contributions of the slots: slot [i] contributes
    [rsrc[i]] if [running[i]], and zero otherwise. *)
Definition conds (running rsrc : list var) : list expr :=
  map (fun p => EIf (EVar (fst p)) (EVar (snd p)) (EConst 0))
      (combine running rsrc).

(** The load the slots running under [rho] put on a resource. *)
Definition load (rho : assignment) (running rsrc : list var) : Q :=
  total (map (fun p => if truthy (rho (fst p)) then number (rho (snd p))
                       else 0)
             (combine running rsrc)).

(** The capacity constraint of the blade [b] of class [c]. *)
Definition capacity_constraint (b : BladeObj.t) (c : BladeClass.t) : expr :=
  EAll [ELe (ESum (conds (BladeObj.running b) (BladeClass.cpu c)))
            (EConst (BladeObj.num_cpu b));
        ELe (ESum [EList (conds (BladeObj.running b) (BladeClass.mem c))])
            (EConst (inject_Z (BladeObj.total_mem b)))].

(** The [running] variable of slot [i] on the blade behind a reference. *)
Definition running_at (w : world) (i : nat) (blade : nat) : var :=
  match nth_error (blades w) blade with
  | Some b => nth i (BladeObj.running b) (Var SBool 0)
  | None => Var SBool 0
  end.

(** The candidates are blades of the store, all of the pool class [cls]. *)
Definition candidates (w : world) (cls : nat) (bs : list nat) : Prop :=
  Forall (fun r => exists b, nth_error (blades w) r = Some b /\
                             BladeObj.type b = cls) bs.

(** The placement disjunction over the candidates [bs] for slot [i]. *)
Definition placement (w : world) (i : nat) (bs : list nat) : expr :=
  EAny (map (fun r => EAll [EEq (EVar (running_at w i r)) ETrue]) bs).

(** The ids the interpreter reports for one blade. *)
Definition worked_on (alloc : assignment) (w : world) (n : Z) (blade : nat)
    : list Z :=
  filter (fun i => truthy (alloc (running_at w (Z.to_nat i) blade)))
         (range n).

(** Variables are compared by domain and serial number. *)
Definition var_eq_dec (u v : var) : {u = v} + {u <> v}.
Proof. decide equality; [apply Nat.eq_dec | decide equality]. Defined.

(** The assignment [rho] with the value of [v] replaced. *)
Definition override (rho : assignment) (v : var) (x : value) : assignment :=
  fun u => if var_eq_dec u v then x else rho u.

(** The conjunct [v >= 0]. *)
Definition nonneg (v : var) : expr := EGe (EVar v) (EConst 0).

(** The pool-wide constraint of the class [c]. *)
Definition global_constraint (c : BladeClass.t) : expr :=
  EAll (map nonneg (BladeClass.cpu c) ++ map nonneg (BladeClass.mem c)).

(** The task made for index [i] of the two cost lists. *)
Definition task_of (task_cpu : list Q) (task_mem : list Z) (i : Z)
    : TaskObj.t :=
  TaskObj.Make i (nth (Z.to_nat i) task_cpu 0%Q) (nth (Z.to_nat i) task_mem 0%Z).

(** The [running] array of the blade behind a reference. *)
Definition running_of (w : world) (blade : nat) : list var :=
  match nth_error (blades w) blade with
  | Some b => BladeObj.running b
  | None => []
  end.

(** No task id is reported for two different blades. *)
Definition mutual_exclusion (out : list (list Z)) : Prop :=
  forall i k1 k2 ids1 ids2,
    k1 <> k2 ->
    nth_error out k1 = Some ids1 -> nth_error out k2 = Some ids2 ->
    In i ids1 -> ~ In i ids2.

(** The assignment that switches every [running] variable on and gives
    every cost variable the value one. *)
Definition all_on : assignment :=
  fun v => match vsort v with
           | SBool => VBool true
           | _ => VNum 1
           end.

(** Two pools of two slots each; two blades of the first pool and one of the
    second; a task with id 0 and a task with id 5. *)
Definition sample_world : world :=
  snd (Task.__init__ 5 2 2
  (snd (Task.__init__ 0 1 1
  (snd (Blade.__init__ 1 4 64
  (snd (define_blade 2
  (snd (Blade.__init__ 0 8 128
  (snd (Blade.__init__ 0 8 128
  (snd (define_blade 2 empty_world))))))))))))).

(** [sample_world] with a third pool of one slot, a blade of it, and a task
    with id 1: a slot of the first two pools, but not of the third. *)
Definition sample_world_mixed : world :=
  snd (Task.__init__ 1 2 2
  (snd (Blade.__init__ 2 4 64
  (snd (define_blade 1 sample_world))))).

(** The run of [main]'s construction for two blades of capacity (8, 128)
    and one task of cost (1, 1): the blades, the two constraint
    collections, and the store. *)
Definition sample_built : (list nat * list expr * list expr) * world :=
  Eval vm_compute in
    match build 2 8 128 [1%Q] [1%Z] empty_world with
    | (Ok x, w) => (x, w)
    | (Raise _, w) => (([], [], []), w)
    end.

(** Python's reading of an index: [i] denotes position [k] of a list of
    length [len] when it counts from the front ([0 <= i < len], [k = i]) or
    from the back ([-len <= i < 0], [k = len + i]). *)
Definition denotes (len : nat) (i : Z) (k : nat) : Prop :=
  ((0 <= i < Z.of_nat len)%Z /\ k = Z.to_nat i) \/
  ((- Z.of_nat len <= i < 0)%Z /\ k = Z.to_nat (Z.of_nat len + i)).

(** The index is outside the list on either side. *)
Definition out_of_range (len : nat) (i : Z) : Prop :=
  (i < - Z.of_nat len)%Z \/ (Z.of_nat len <= i)%Z.

(** Induction over constraint objects, with the hypothesis available for
    every argument of an n-ary combinator. *)
Section ExprInd.
Variable P : expr -> Prop.
Hypothesis HVar : forall v, P (EVar v).
Hypothesis HConst : forall q, P (EConst q).
Hypothesis HTrue : P ETrue.
Hypothesis HList : forall l, Forall P l -> P (EList l).
Hypothesis HIf : forall c a b, P c -> P a -> P b -> P (EIf c a b).
Hypothesis HSum : forall l, Forall P l -> P (ESum l).
Hypothesis HLe : forall a b, P a -> P b -> P (ELe a b).
Hypothesis HGe : forall a b, P a -> P b -> P (EGe a b).
Hypothesis HEq : forall a b, P a -> P b -> P (EEq a b).
Hypothesis HAll : forall l, Forall P l -> P (EAll l).
Hypothesis HAny : forall l, Forall P l -> P (EAny l).

Fixpoint expr_nested_ind (e : expr) : P e :=
  let fix args (l : list expr) : Forall P l :=
    match l with
    | [] => Forall_nil P
    | x :: l' => Forall_cons x (expr_nested_ind x) (args l')
    end in
  match e with
  | EVar v => HVar v
  | EConst q => HConst q
  | ETrue => HTrue
  | EList l => HList l (args l)
  | EIf c a b =>
      HIf c a b (expr_nested_ind c) (expr_nested_ind a) (expr_nested_ind b)
  | ESum l => HSum l (args l)
  | ELe a b => HLe a b (expr_nested_ind a) (expr_nested_ind b)
  | EGe a b => HGe a b (expr_nested_ind a) (expr_nested_ind b)
  | EEq a b => HEq a b (expr_nested_ind a) (expr_nested_ind b)
  | EAll l => HAll l (args l)
  | EAny l => HAny l (args l)
  end.
End ExprInd.

(** The blades [main] makes carry the two capacities it was given. *)
Definition has_capacities (w : world) (num_cpu : Q) (total_mem : Z)
    (blade : nat) : Prop :=
  exists b, nth_error (blades w) blade = Some b /\
            BladeObj.num_cpu b = num_cpu /\ BladeObj.total_mem b = total_mem.

(** [sample_world] with a third task, whose id is [-1]. *)
Definition sample_world_neg : world :=
  snd (Task.__init__ (-1) 3 3 sample_world).

(** The run of [main]'s construction with the constants of the source. *)
Definition main_built : (list nat * list expr * list expr) * world :=
  Eval vm_compute in
    match build 4 8 128 task_cpu task_mem empty_world with
    | (Ok x, w) => (x, w)
    | (Raise _, w) => (([], [], []), w)
    end.

(** A solver that answers with [all_on] and the count zero. *)
Definition constant_solver : list expr -> list expr -> M (assignment * Z) :=
  fun _ _ => ret (all_on, 0%Z).

(** * Properties *)

(** ** Running computations *)

Lemma bind_Ok {A B} (m : M A) (f : A -> M B) w a w' :
  m w = (Ok a, w') -> bind m f w = f a w'.
Proof. unfold bind. intros ->. reflexivity. Qed.

Lemma bind_Raise {A B} (m : M A) (f : A -> M B) w e w' :
  m w = (Raise e, w') -> bind m f w = (Raise e, w').
Proof. unfold bind. intros ->. reflexivity. Qed.

Lemma bind_inv {A B} (m : M A) (f : A -> M B) w b w2 :
  bind m f w = (Ok b, w2) ->
  exists a w1, m w = (Ok a, w1) /\ f a w1 = (Ok b, w2).
Proof.
  unfold bind. destruct (m w) as [[a|e] w1]; intros H.
  - exists a, w1. split; [reflexivity | exact H].
  - discriminate H.
Qed.

Lemma reads_ret {A} (a : A) : reads (ret a).
Proof. intro w. reflexivity. Qed.

Lemma reads_raise {A} e : reads (@raise A e).
Proof. intro w. reflexivity. Qed.

Lemma reads_bind {A B} (m : M A) (f : A -> M B) :
  reads m -> (forall a, reads (f a)) -> reads (bind m f).
Proof.
  intros Hm Hf w. unfold bind. specialize (Hm w).
  destruct (m w) as [[a|e] w1]; simpl in Hm; subst w1.
  - apply Hf.
  - reflexivity.
Qed.

Lemma reads_mapM {A B} (f : A -> M B) l :
  (forall a, reads (f a)) -> reads (mapM f l).
Proof.
  intros Hf. induction l as [|x l IH]; simpl.
  - apply reads_ret.
  - apply reads_bind; [apply Hf|]. intros y.
    apply reads_bind; [exact IH|]. intros ys. apply reads_ret.
Qed.

Lemma reads_filterM {A} (p : A -> M bool) l :
  (forall a, reads (p a)) -> reads (filterM p l).
Proof.
  intros Hp. induction l as [|x l IH]; simpl.
  - apply reads_ret.
  - apply reads_bind; [apply Hp|]. intros k.
    apply reads_bind; [exact IH|]. intros xs. apply reads_ret.
Qed.

Lemma reads_getitem {A} (l : list A) i : reads (getitem l i).
Proof.
  intro w. unfold getitem.
  destruct (_ && _)%bool; [|reflexivity].
  destruct (nth_error _ _); reflexivity.
Qed.

Lemma reads_deref {A} (table : world -> list A) r : reads (deref table r).
Proof. intro w. unfold deref. destruct (nth_error _ _); reflexivity. Qed.

Lemma reads_get_class r : reads (get_class r).
Proof. apply reads_deref. Qed.

Lemma reads_get_blade r : reads (get_blade r).
Proof. apply reads_deref. Qed.

Lemma reads_get_task r : reads (get_task r).
Proof. apply reads_deref. Qed.

Create HintDb reads.
#[export] Hint Resolve reads_ret reads_raise reads_getitem reads_deref
  reads_get_class reads_get_blade reads_get_task : reads.

(** Splits a computation along its binds and comprehensions and closes the
    leaves that are reads. *)
Ltac read_only :=
  repeat first
    [ solve [auto with reads]
    | apply reads_bind
    | apply reads_mapM
    | apply reads_filterM
    | match goal with |- forall _, _ => intro end ].

(** ** Indexing *)

Lemma getitem_nth {A} (l : list A) (k : nat) a w :
  nth_error l k = Some a -> getitem l (Z.of_nat k) w = (Ok a, w).
Proof.
  intros H. unfold getitem.
  assert (Hk : (k < length l)%nat) by (apply nth_error_Some; congruence).
  destruct (Z.ltb_spec (Z.of_nat k) 0); [lia|].
  destruct (Z.leb_spec 0 (Z.of_nat k)); [|lia].
  destruct (Z.ltb_spec (Z.of_nat k) (Z.of_nat (length l))); [|lia].
  simpl. rewrite Nat2Z.id, H. reflexivity.
Qed.

Lemma getitem_pos {A} (l : list A) (i : Z) d w :
  (0 <= i < Z.of_nat (length l))%Z ->
  getitem l i w = (Ok (nth (Z.to_nat i) l d), w).
Proof.
  intros H. rewrite <- (Z2Nat.id i) at 1 by lia.
  apply getitem_nth. apply nth_error_nth'. lia.
Qed.

Lemma getitem_Ok {A} (l : list A) (i : Z) a w w' :
  getitem l i w = (Ok a, w') ->
  w' = w /\ (- Z.of_nat (length l) <= i < Z.of_nat (length l))%Z /\
  nth_error l (Z.to_nat (if (i <? 0)%Z then i + Z.of_nat (length l) else i))
  = Some a.
Proof.
  unfold getitem.
  set (j := if (i <? 0)%Z then (i + Z.of_nat (length l))%Z else i).
  destruct (Z.leb_spec 0 j); simpl;
    [destruct (Z.ltb_spec j (Z.of_nat (length l))); simpl|];
    try (unfold raise; congruence).
  destruct (nth_error l (Z.to_nat j)) eqn:E;
    unfold ret, raise; intros Heq; inversion Heq; subst.
  repeat split; subst j; destruct (Z.ltb_spec i 0); lia.
Qed.

Lemma getitem_high {A} (l : list A) (i : Z) w :
  (Z.of_nat (length l) <= i)%Z -> getitem l i w = (Raise IndexError, w).
Proof.
  intros H. unfold getitem.
  destruct (Z.ltb_spec i 0); [lia|].
  destruct (Z.ltb_spec i (Z.of_nat (length l))); [lia|].
  rewrite andb_false_r. reflexivity.
Qed.

Lemma getitem_nil {A} (i : Z) w : getitem (@nil A) i w = (Raise IndexError, w).
Proof.
  unfold getitem. simpl.
  destruct (Z.ltb_spec i 0).
  - destruct (Z.leb_spec 0 (i + 0)); [lia|]. reflexivity.
  - destruct (Z.ltb_spec i 0); [lia|]. rewrite andb_false_r. reflexivity.
Qed.

Lemma in_range (n i : Z) : In i (range n) <-> (0 <= i < n)%Z.
Proof.
  unfold range. rewrite in_map_iff. split.
  - intros [k [<- Hk]]. apply in_seq in Hk. lia.
  - intros H. exists (Z.to_nat i). split; [lia|]. apply in_seq. lia.
Qed.

Lemma length_range n : length (range n) = Z.to_nat n.
Proof. unfold range. now rewrite length_map, length_seq. Qed.

(** ** Comprehensions *)

Lemma mapM_Ok {A B} (f : A -> M B) (g : A -> B) l w :
  (forall x, In x l -> f x w = (Ok (g x), w)) ->
  mapM f l w = (Ok (map g l), w).
Proof.
  induction l as [|x l IH]; intros H; simpl; [reflexivity|].
  rewrite (@bind_Ok _ _ _ _ _ _ _ (H x (or_introl eq_refl))).
  rewrite (@bind_Ok _ _ _ _ _ _ _ (IH (fun y Hy => H y (or_intror Hy)))).
  reflexivity.
Qed.

Lemma filterM_Ok {A} (p : A -> M bool) (q : A -> bool) l w :
  (forall x, In x l -> p x w = (Ok (q x), w)) ->
  filterM p l w = (Ok (filter q l), w).
Proof.
  induction l as [|x l IH]; intros H; simpl; [reflexivity|].
  rewrite (@bind_Ok _ _ _ _ _ _ _ (H x (or_introl eq_refl))).
  rewrite (@bind_Ok _ _ _ _ _ _ _ (IH (fun y Hy => H y (or_intror Hy)))).
  unfold ret. destruct (q x); reflexivity.
Qed.

(** A comprehension over [range(n)] that reads two lists of length [n]
    position by position pairs them up. *)
Lemma map_seq_combine {A B C} (h : A -> B -> C) (l1 : list A) (l2 : list B)
    (g : nat -> C) s :
  length l1 = length l2 ->
  (forall k a b, nth_error l1 k = Some a -> nth_error l2 k = Some b ->
                 g (s + k)%nat = h a b) ->
  map g (seq s (length l1)) = map (fun p => h (fst p) (snd p)) (combine l1 l2).
Proof.
  revert l2 s. induction l1 as [|a l1 IH]; intros [|b l2] s Hlen Hg;
    simpl in *; try discriminate; [reflexivity|].
  f_equal.
  - rewrite <- (Hg 0%nat a b eq_refl eq_refl). f_equal. lia.
  - apply IH; [congruence|]. intros k a' b' Ha Hb.
    rewrite <- (Hg (S k) a' b' Ha Hb). f_equal. lia.
Qed.

(** ** Variable allocation *)

Lemma length_fresh_vars s a n : length (fresh_vars s a n) = n.
Proof. unfold fresh_vars. now rewrite length_map, length_seq. Qed.

Lemma in_fresh_vars s a n v :
  In v (fresh_vars s a n) -> vsort v = s /\ (a <= vid v < a + n)%nat.
Proof.
  unfold fresh_vars. rewrite in_map_iff. intros [k [<- Hk]].
  apply in_seq in Hk. simpl. split; [reflexivity | lia].
Qed.

Lemma NoDup_map_inj {A B} (f : A -> B) l :
  (forall x y, f x = f y -> x = y) -> NoDup l -> NoDup (map f l).
Proof.
  intros Hf. induction 1 as [|k l Hk Hl IH]; simpl; constructor; [|exact IH].
  rewrite in_map_iff. intros [k' [E Hk']]. apply Hf in E. subst. contradiction.
Qed.

Lemma NoDup_fresh_vars s a n : NoDup (fresh_vars s a n).
Proof.
  unfold fresh_vars. apply NoDup_map_inj; [|apply seq_NoDup].
  intros x y E. now inversion E.
Qed.

Lemma NoDup_range n : NoDup (range n).
Proof.
  unfold range. apply NoDup_map_inj; [|apply seq_NoDup].
  intros x y E. lia.
Qed.

Lemma mapM_new_var {A} s (l : list A) w :
  mapM (fun _ => new_var s) l w =
  (Ok (fresh_vars s (next_var w) (length l)),
   World (next_var w + length l) (classes w) (blades w) (tasks w)).
Proof.
  revert w. induction l as [|x l IH]; intros w; simpl.
  - unfold ret. rewrite Nat.add_0_r. destruct w; reflexivity.
  - unfold bind at 1. unfold new_var at 1.
    unfold bind at 1. rewrite IH. simpl. unfold ret.
    f_equal. f_equal. lia.
Qed.

Lemma define_blade_run num_tasks w :
  define_blade num_tasks w =
  (Ok (length (classes w)),
   World (next_var w + Z.to_nat num_tasks + Z.to_nat num_tasks)
         (classes w ++ [new_class_of num_tasks w]) (blades w) (tasks w)).
Proof.
  unfold define_blade, sa.Real, sa.Int.
  unfold bind at 1. rewrite mapM_new_var.
  unfold bind at 1. rewrite mapM_new_var. simpl.
  rewrite !length_range. reflexivity.
Qed.

Lemma Blade_init_run cls c num_cpu total_mem w :
  nth_error (classes w) cls = Some c ->
  Blade.__init__ cls num_cpu total_mem w =
  (Ok (length (blades w)),
   World (next_var w + Z.to_nat (BladeClass.num_tasks c)) (classes w)
         (blades w ++ [new_blade_of cls c num_cpu total_mem w]) (tasks w)).
Proof.
  intros Hc. unfold Blade.__init__, sa.Bool, get_class.
  unfold bind at 1. unfold deref. rewrite Hc.
  unfold bind at 1. rewrite mapM_new_var. simpl.
  rewrite !length_range. reflexivity.
Qed.

(** ** Well-formed stores *)

Lemma wf_empty : wf_world empty_world.
Proof. split; simpl; constructor. Qed.

Lemma blade_ok_app cs c b : blade_ok cs b -> blade_ok (cs ++ [c]) b.
Proof.
  intros [k [Hk Hl]]. exists k. split; [|exact Hl].
  rewrite nth_error_app1; [exact Hk|]. apply nth_error_Some. congruence.
Qed.

(** Adding variables that were never handed out keeps the store free of
    duplicates, wherever they are inserted. *)
Lemma NoDup_insert_fresh (pre post new : list var) (bound : nat) :
  NoDup (pre ++ post) -> NoDup new ->
  Forall (fun v => (vid v < bound)%nat) (pre ++ post) ->
  (forall v, In v new -> (bound <= vid v)%nat) ->
  NoDup ((pre ++ new) ++ post).
Proof.
  intros Hold Hnew Hb Hfresh.
  rewrite Forall_forall in Hb.
  assert (Hsep : forall v, In v new -> ~ In v (pre ++ post)).
  { intros v Hv Hin. specialize (Hb v Hin). specialize (Hfresh v Hv). lia. }
  apply NoDup_app.
  - apply NoDup_app.
    + eapply NoDup_app_remove_r; exact Hold.
    + exact Hnew.
    + intros v Hv Hn. apply (Hsep v Hn). apply in_or_app. now left.
  - eapply NoDup_app_remove_l; exact Hold.
  - intros v Hv Hp. apply in_app_or in Hv. destruct Hv as [Hv|Hv].
    + revert v Hv Hp. clear -Hold.
      induction pre as [|a pre IH]; simpl; intros v Hv Hp; [contradiction|].
      inversion Hold as [|? ? Ha Hrest]; subst.
      destruct Hv as [->|Hv].
      * apply Ha. apply in_or_app. now right.
      * exact (IH Hrest v Hv Hp).
    + apply (Hsep v Hv). apply in_or_app. now right.
Qed.

Lemma wf_define_blade num_tasks w :
  wf_world w -> wf_world (snd (define_blade num_tasks w)).
Proof.
  intros [Hc Hb Hf Hd]. rewrite define_blade_run. simpl.
  set (n := Z.to_nat num_tasks).
  assert (Hnew : forall v, In v (class_vars (new_class_of num_tasks w)) ->
                           (next_var w <= vid v < next_var w + n + n)%nat).
  { intros v Hv. unfold class_vars, new_class_of in Hv. simpl in Hv.
    apply in_app_or in Hv. destruct Hv as [Hv|Hv];
      apply in_fresh_vars in Hv; fold n in Hv; lia. }
  split; simpl.
  - apply Forall_app. split; [exact Hc|]. constructor; [|constructor].
    unfold class_ok, new_class_of. simpl.
    now rewrite !length_fresh_vars.
  - eapply Forall_impl; [|exact Hb]. intros b. apply blade_ok_app.
  - unfold all_vars in *. simpl. rewrite flat_map_app. simpl.
    rewrite app_nil_r. rewrite Forall_forall in *.
    intros v Hv. rewrite !in_app_iff in Hv.
    destruct Hv as [[Hv|Hv]|Hv].
    + specialize (Hf v). rewrite in_app_iff in Hf.
      specialize (Hf (or_introl Hv)). lia.
    + apply Hnew in Hv. lia.
    + specialize (Hf v). rewrite in_app_iff in Hf.
      specialize (Hf (or_intror Hv)). lia.
  - unfold all_vars in *. simpl. rewrite flat_map_app. simpl.
    rewrite app_nil_r.
    apply NoDup_insert_fresh with (bound := next_var w); try assumption.
    + unfold class_vars, new_class_of. simpl. apply NoDup_app.
      * apply NoDup_fresh_vars.
      * apply NoDup_fresh_vars.
      * intros v H1 H2. apply in_fresh_vars in H1, H2.
        destruct H1 as [H1 _], H2 as [H2 _]. congruence.
    + intros v Hv. apply Hnew in Hv. lia.
Qed.

Lemma wf_Blade_init cls num_cpu total_mem w :
  wf_world w -> wf_world (snd (Blade.__init__ cls num_cpu total_mem w)).
Proof.
  intros Hw. destruct (nth_error (classes w) cls) as [c|] eqn:Hcls.
  - destruct Hw as [Hc Hb Hf Hd].
    erewrite Blade_init_run by exact Hcls. simpl.
    set (n := Z.to_nat (BladeClass.num_tasks c)).
    split; simpl.
    + exact Hc.
    + apply Forall_app. split; [exact Hb|]. constructor; [|constructor].
      exists c. split; [exact Hcls|]. simpl. apply length_fresh_vars.
    + unfold all_vars in *. simpl. rewrite flat_map_app. simpl.
      rewrite app_nil_r. rewrite Forall_forall in *.
      intros v Hv. rewrite !in_app_iff in Hv.
      destruct Hv as [Hv|[Hv|Hv]].
      * specialize (Hf v). rewrite in_app_iff in Hf.
        specialize (Hf (or_introl Hv)). lia.
      * specialize (Hf v). rewrite in_app_iff in Hf.
        specialize (Hf (or_intror Hv)). lia.
      * apply in_fresh_vars in Hv. lia.
    + unfold all_vars in *. simpl. rewrite flat_map_app. simpl.
      rewrite app_nil_r, app_assoc.
      rewrite <- (app_nil_r (_ ++ fresh_vars _ _ _)).
      apply NoDup_insert_fresh with (bound := next_var w).
      * now rewrite app_nil_r.
      * apply NoDup_fresh_vars.
      * now rewrite app_nil_r.
      * intros v Hv. apply in_fresh_vars in Hv. lia.
  - unfold Blade.__init__, get_class, bind, deref. rewrite Hcls. exact Hw.
Qed.

Lemma wf_Task_init i c m w :
  wf_world w -> wf_world (snd (Task.__init__ i c m w)).
Proof.
  intros [Hc Hb Hf Hd]. unfold Task.__init__, new_task. simpl.
  split; assumption.
Qed.

Lemma wf_blade_slots w r b c :
  wf_world w -> nth_error (blades w) r = Some b ->
  nth_error (classes w) (BladeObj.type b) = Some c ->
  length (BladeObj.running b) = Z.to_nat (BladeClass.num_tasks c).
Proof.
  intros Hw Hb Hc. pose proof (wf_blades _ Hw) as H.
  rewrite Forall_forall in H.
  destruct (H b (nth_error_In _ _ Hb)) as [c' [Hc' Hl]]. congruence.
Qed.

Lemma wf_class_slots w cls c :
  wf_world w -> nth_error (classes w) cls = Some c -> class_ok c.
Proof.
  intros Hw Hc. pose proof (wf_classes _ Hw) as H.
  rewrite Forall_forall in H. exact (H c (nth_error_In _ _ Hc)).
Qed.

(** ** Capacity constraints of a blade *)

Lemma length_conds running rsrc :
  length running = length rsrc -> length (conds running rsrc) = length rsrc.
Proof.
  intros H. unfold conds. rewrite length_map, length_combine. lia.
Qed.

Lemma cond_run self b (k : nat) rsrc r x w :
  nth_error (blades w) self = Some b ->
  nth_error (BladeObj.running b) k = Some r ->
  nth_error rsrc k = Some x ->
  Blade._cond self (Z.of_nat k) rsrc w
  = (Ok (EIf (EVar r) (EVar x) (EConst 0)), w).
Proof.
  intros Hb Hr Hx. unfold Blade._cond, get_blade.
  unfold bind at 1. unfold deref. rewrite Hb.
  erewrite bind_Ok by (apply getitem_nth; exact Hr).
  erewrite bind_Ok by (apply getitem_nth; exact Hx).
  reflexivity.
Qed.

Lemma mapM_cond self b rsrc (f : Z -> M expr) w :
  nth_error (blades w) self = Some b ->
  length (BladeObj.running b) = length rsrc ->
  (forall i, f i w = Blade._cond self i rsrc w) ->
  mapM f (range (Z.of_nat (length rsrc))) w
  = (Ok (conds (BladeObj.running b) rsrc), w).
Proof.
  intros Hb Hlen Hf.
  set (d := Var SBool 0).
  set (g := fun k : nat => EIf (EVar (nth k (BladeObj.running b) d))
                               (EVar (nth k rsrc d)) (EConst 0)).
  rewrite mapM_Ok with (g := fun i => g (Z.to_nat i)).
  - f_equal. f_equal. unfold range, conds.
    rewrite map_map, Nat2Z.id, <- Hlen.
    rewrite (map_ext _ g) by (intros k; now rewrite Nat2Z.id).
    apply map_seq_combine with (h := fun r x => EIf (EVar r) (EVar x) (EConst 0));
      [exact Hlen|].
    intros k r x Hr Hx. unfold g. simpl.
    now rewrite (nth_error_nth _ _ d Hr), (nth_error_nth _ _ d Hx).
  - intros i Hi. apply in_range in Hi. rewrite Hf.
    assert (Hk : (Z.to_nat i < length rsrc)%nat) by lia.
    rewrite <- (Z2Nat.id i) at 1 by lia.
    apply cond_run with (b := b); [exact Hb| |].
    + unfold g. apply nth_error_nth'. lia.
    + apply nth_error_nth'. lia.
Qed.

Lemma eval_conds rho running rsrc :
  total (map (fun a => number (eval rho a)) (conds running rsrc))
  = load rho running rsrc.
Proof.
  unfold load, conds. rewrite map_map. f_equal. apply map_ext.
  intros [r x]. simpl. destruct (truthy (rho r)); reflexivity.
Qed.

Lemma Blade_get_constraints_run w self b c :
  wf_world w ->
  nth_error (blades w) self = Some b ->
  nth_error (classes w) (BladeObj.type b) = Some c ->
  Blade.get_constraints self w = (Ok (capacity_constraint b c), w).
Proof.
  intros Hw Hb Hc.
  assert (Hbo : blade_ok (classes w) b).
  { pose proof (wf_blades _ Hw) as H. rewrite Forall_forall in H.
    apply H. eapply nth_error_In; exact Hb. }
  destruct Hbo as [c' [Hc' Hrun]]. rewrite Hc in Hc'. inversion Hc'. subst c'.
  assert (Hco : class_ok c).
  { pose proof (wf_classes _ Hw) as H. rewrite Forall_forall in H.
    apply H. eapply nth_error_In; exact Hc. }
  destruct Hco as [Hcpu Hmem].
  unfold Blade.get_constraints, get_blade, get_class.
  unfold bind at 1. unfold deref at 1. rewrite Hb.
  unfold bind at 1. unfold deref at 1. rewrite Hc.
  assert (Hr1 : range (BladeClass.num_tasks c)
                = range (Z.of_nat (length (BladeClass.cpu c)))).
  { unfold range. now rewrite Hcpu, Nat2Z.id. }
  assert (Hr2 : range (BladeClass.num_tasks c)
                = range (Z.of_nat (length (BladeClass.mem c)))).
  { unfold range. now rewrite Hmem, Nat2Z.id. }
  rewrite Hr1 at 1.
  erewrite bind_Ok.
  2:{ apply mapM_cond with (self := self) (b := b); [exact Hb|congruence|].
      intros i. unfold Blade._cond_cpu, get_blade, get_class.
      unfold bind at 1. unfold deref at 1. rewrite Hb.
      unfold bind at 1. unfold deref at 1. rewrite Hc. reflexivity. }
  rewrite Hr2.
  erewrite bind_Ok.
  2:{ apply mapM_cond with (self := self) (b := b); [exact Hb|congruence|].
      intros i. unfold Blade._cond_mem, get_blade, get_class.
      unfold bind at 1. unfold deref at 1. rewrite Hb.
      unfold bind at 1. unfold deref at 1. rewrite Hc. reflexivity. }
  reflexivity.
Qed.

(** C1. For a blade of a well-formed store, [Blade.get_constraints] returns
    the conjunction of exactly two bounds: the sum over all slots of the
    conditional CPU contribution is at most the blade's CPU capacity, and
    the sum over all slots of the conditional memory contribution is at most
    its memory capacity.  There is one contribution per slot, and an
    assignment satisfies the constraint exactly when both loads fit. *)
Theorem C1_blade_get_constraints w self b c :
  wf_world w ->
  nth_error (blades w) self = Some b ->
  nth_error (classes w) (BladeObj.type b) = Some c ->
  exists cpus mems,
    Blade.get_constraints self w
    = (Ok (EAll [ELe (ESum cpus) (EConst (BladeObj.num_cpu b));
                 ELe (ESum [EList mems])
                     (EConst (inject_Z (BladeObj.total_mem b)))]), w)
    /\ cpus = conds (BladeObj.running b) (BladeClass.cpu c)
    /\ mems = conds (BladeObj.running b) (BladeClass.mem c)
    /\ length cpus = Z.to_nat (BladeClass.num_tasks c)
    /\ length mems = Z.to_nat (BladeClass.num_tasks c)
    /\ forall rho,
         holds rho (EAll [ELe (ESum cpus) (EConst (BladeObj.num_cpu b));
                          ELe (ESum [EList mems])
                              (EConst (inject_Z (BladeObj.total_mem b)))])
         = true
         <-> (load rho (BladeObj.running b) (BladeClass.cpu c)
              <= BladeObj.num_cpu b
              /\ load rho (BladeObj.running b) (BladeClass.mem c)
                 <= inject_Z (BladeObj.total_mem b))%Q.
Proof.
  intros Hw Hb Hc.
  pose proof (wf_blade_slots _ _ _ _ Hw Hb Hc) as Hrun.
  destruct (wf_class_slots _ _ _ Hw Hc) as [Hcpu Hmem].
  exists (conds (BladeObj.running b) (BladeClass.cpu c)),
         (conds (BladeObj.running b) (BladeClass.mem c)).
  split; [|split; [reflexivity|split; [reflexivity|split; [|split]]]].
  - exact (Blade_get_constraints_run w self b c Hw Hb Hc).
  - rewrite length_conds; congruence.
  - rewrite length_conds; congruence.
  - intros rho. unfold holds. cbn [eval forallb truthy map number].
    rewrite !eval_conds. cbn [total fold_right].
    rewrite andb_true_r, andb_true_iff, !Qle_bool_iff.
    rewrite Qplus_0_r. reflexivity.
Qed.

(** ** Constraints of a task *)

Lemma assign_blade_run w self t r b (k : nat) :
  nth_error (tasks w) self = Some t ->
  nth_error (blades w) r = Some b ->
  TaskObj.id t = Z.of_nat k ->
  (k < length (BladeObj.running b))%nat ->
  Task._assign_blade self r w
  = (Ok (EAll [EEq (EVar (running_at w k r)) ETrue]), w).
Proof.
  intros Ht Hb Hid Hk. unfold Task._assign_blade, get_blade, get_task.
  unfold bind at 1. unfold deref at 1. rewrite Hb.
  unfold bind at 1. unfold deref at 1. rewrite Ht.
  rewrite Hid.
  erewrite bind_Ok by (apply getitem_nth; apply nth_error_nth'; exact Hk).
  unfold running_at. rewrite Hb. reflexivity.
Qed.

Lemma assign_blades_run w self t cls c bs (k : nat) :
  wf_world w ->
  nth_error (tasks w) self = Some t ->
  nth_error (classes w) cls = Some c ->
  candidates w cls bs ->
  TaskObj.id t = Z.of_nat k ->
  (Z.of_nat k < BladeClass.num_tasks c)%Z ->
  Task._assign_blades self bs w = (Ok (placement w k bs), w).
Proof.
  intros Hw Ht Hc Hbs Hid Hk. unfold Task._assign_blades.
  erewrite bind_Ok; [reflexivity|].
  apply mapM_Ok with
    (g := fun r => EAll [EEq (EVar (running_at w k r)) ETrue]).
  intros r Hr. unfold candidates in Hbs. rewrite Forall_forall in Hbs.
  destruct (Hbs r Hr) as [b [Hb Hty]]. subst cls.
  apply assign_blade_run with (t := t) (b := b); try assumption.
  rewrite (wf_blade_slots _ _ _ _ Hw Hb Hc). lia.
Qed.

(** The run of [Task.get_constraints] on candidates of one pool and a task
    whose id is a slot of that pool. *)
Lemma Task_get_constraints_run w self t cls c b0 rest (k : nat) :
  wf_world w ->
  nth_error (tasks w) self = Some t ->
  nth_error (classes w) cls = Some c ->
  candidates w cls (b0 :: rest) ->
  TaskObj.id t = Z.of_nat k ->
  (Z.of_nat k < BladeClass.num_tasks c)%Z ->
  exists x y,
    nth_error (BladeClass.cpu c) k = Some x /\
    nth_error (BladeClass.mem c) k = Some y /\
    Task.get_constraints self (b0 :: rest) w
    = (Ok (EAll [EEq (EVar x) (EConst (TaskObj.cpu t));
                 EEq (EVar y) (EConst (inject_Z (TaskObj.mem t)));
                 placement w k (b0 :: rest)]), w).
Proof.
  intros Hw Ht Hc Hbs Hid Hk.
  destruct (wf_class_slots _ _ _ Hw Hc) as [Hcpu Hmem].
  destruct (nth_error (BladeClass.cpu c) k) as [x|] eqn:Hx.
  2:{ apply nth_error_None in Hx. lia. }
  destruct (nth_error (BladeClass.mem c) k) as [y|] eqn:Hy.
  2:{ apply nth_error_None in Hy. lia. }
  exists x, y. split; [reflexivity|split; [reflexivity|]].
  pose proof Hbs as Hall. unfold candidates in Hbs.
  inversion Hbs as [|? ? [b [Hb Hty]] _]; subst.
  unfold Task.get_constraints, get_blade, get_class, get_task.
  erewrite bind_Ok by (apply (getitem_nth (b0 :: rest) 0%nat); reflexivity).
  unfold bind at 1. unfold deref at 1. rewrite Hb.
  unfold bind at 1. unfold deref at 1. rewrite Hc.
  unfold bind at 1. unfold deref at 1. rewrite Ht.
  rewrite Hid.
  erewrite bind_Ok by (apply getitem_nth; exact Hx).
  erewrite bind_Ok by (apply getitem_nth; exact Hy).
  erewrite bind_Ok by (eapply assign_blades_run; eassumption).
  reflexivity.
Qed.

Lemma holds_EAll rho l : holds rho (EAll l) = forallb (holds rho) l.
Proof. reflexivity. Qed.

Lemma holds_EEq_num rho x q :
  holds rho (EEq (EVar x) (EConst q)) = Qeq_bool (number (rho x)) q.
Proof. unfold holds. cbn. destruct (rho x); reflexivity. Qed.

Lemma holds_placement rho w k bs :
  holds rho (placement w k bs) = true <->
  exists r, In r bs /\ value_eqb (rho (running_at w k r)) (VBool true) = true.
Proof.
  unfold holds, placement. cbn [eval truthy].
  rewrite existsb_exists. split.
  - intros [e [He Hv]]. apply in_map_iff in He.
    destruct He as [r [<- Hr]]. exists r. split; [exact Hr|].
    cbn in Hv. now rewrite andb_true_r in Hv.
  - intros [r [Hr Hv]].
    exists (EAll [EEq (EVar (running_at w k r)) ETrue]). split.
    + apply in_map_iff. exists r. split; [reflexivity | exact Hr].
    + cbn. now rewrite andb_true_r.
Qed.

(** C2. For a task with id [i] and declared costs [(c, m)] and a non-empty
    list [B] of candidate blades of one pool, [Task.get_constraints(B)]
    returns the conjunction of [cpu_cost[i] == c] and [mem_cost[i] == m] on
    the pool's slot variables together with the disjunction, over every
    blade of [B], of "[running[i]] is true on that blade"; an assignment
    satisfies it exactly when the two costs are met and some candidate has
    its [running[i]] true. *)
Theorem C2_task_get_constraints w self t cls c b0 rest (i : nat) :
  wf_world w ->
  nth_error (tasks w) self = Some t ->
  nth_error (classes w) cls = Some c ->
  candidates w cls (b0 :: rest) ->
  TaskObj.id t = Z.of_nat i ->
  (Z.of_nat i < BladeClass.num_tasks c)%Z ->
  exists x y e,
    nth_error (BladeClass.cpu c) i = Some x /\
    nth_error (BladeClass.mem c) i = Some y /\
    Task.get_constraints self (b0 :: rest) w = (Ok e, w) /\
    e = EAll [EEq (EVar x) (EConst (TaskObj.cpu t));
              EEq (EVar y) (EConst (inject_Z (TaskObj.mem t)));
              EAny (map (fun r => EAll [EEq (EVar (running_at w i r)) ETrue])
                        (b0 :: rest))] /\
    forall rho,
      holds rho e = true <->
      (number (rho x) == TaskObj.cpu t)%Q /\
      (number (rho y) == inject_Z (TaskObj.mem t))%Q /\
      exists r, In r (b0 :: rest) /\
                value_eqb (rho (running_at w i r)) (VBool true) = true.
Proof.
  intros Hw Ht Hc Hbs Hid Hi.
  destruct (Task_get_constraints_run _ _ _ _ _ _ _ _ Hw Ht Hc Hbs Hid Hi)
    as [x [y [Hx [Hy Hrun]]]].
  exists x, y.
  exists (EAll [EEq (EVar x) (EConst (TaskObj.cpu t));
                EEq (EVar y) (EConst (inject_Z (TaskObj.mem t)));
                placement w i (b0 :: rest)]).
  split; [exact Hx|]. split; [exact Hy|]. split; [exact Hrun|].
  split; [reflexivity|].
  intros rho. rewrite holds_EAll. cbn [forallb].
  rewrite !holds_EEq_num, andb_true_r, !andb_true_iff, !Qeq_bool_iff.
  rewrite holds_placement. reflexivity.
Qed.

Lemma mapM_app_Raise {A B} (f : A -> M B) l1 x l2 w e :
  (forall a, In a l1 -> exists y, f a w = (Ok y, w)) ->
  f x w = (Raise e, w) ->
  mapM f (l1 ++ x :: l2) w = (Raise e, w).
Proof.
  intros Hok Hx. induction l1 as [|a l1 IH]; simpl.
  - now apply bind_Raise.
  - destruct (Hok a (or_introl eq_refl)) as [y Hy].
    erewrite bind_Ok by exact Hy. apply bind_Raise.
    apply IH. intros z Hz. apply Hok. now right.
Qed.

(** The [running] variables the candidates hold at slot [k], in the order
    of the list. *)
Lemma running_at_candidates w cls c bs k :
  wf_world w ->
  nth_error (classes w) cls = Some c ->
  candidates w cls bs ->
  (Z.of_nat k < BladeClass.num_tasks c)%Z ->
  Forall2 (fun r v => exists b, nth_error (blades w) r = Some b /\
                                nth_error (BladeObj.running b) k = Some v)
          bs (map (running_at w k) bs).
Proof.
  intros Hw Hc Hbs Hk. unfold candidates in Hbs.
  induction Hbs as [|r bs [b [Hb Hty]] _ IH]; simpl; constructor.
  - exists b. split; [exact Hb|]. unfold running_at. rewrite Hb.
    apply nth_error_nth'. subst cls.
    rewrite (wf_blade_slots _ _ _ _ Hw Hb Hc). lia.
  - exact IH.
Qed.

(** C10. Building a task's constraints indexes the pool's cost arrays and
    each candidate's [running] array at the task's id.  For a non-empty list
    of candidate blades of one pool: if [0 <= id < num_tasks] the call
    returns the constraint over [cpu[id]], [mem[id]] and, for every
    candidate in turn, that candidate's [running[id]]; if [id >= num_tasks]
    it raises [IndexError].  That every candidate's array is read shows
    when a further candidate has fewer slots than the id asks for: the
    call then raises [IndexError] although both cost lookups succeed. *)
Theorem C10_task_id_indexes_slots w self t cls c b0 rest :
  wf_world w ->
  nth_error (tasks w) self = Some t ->
  nth_error (classes w) cls = Some c ->
  candidates w cls (b0 :: rest) ->
  ((0 <= TaskObj.id t < BladeClass.num_tasks c)%Z ->
   exists x y runs,
     nth_error (BladeClass.cpu c) (Z.to_nat (TaskObj.id t)) = Some x /\
     nth_error (BladeClass.mem c) (Z.to_nat (TaskObj.id t)) = Some y /\
     Forall2 (fun r v =>
                exists b, nth_error (blades w) r = Some b /\
                          nth_error (BladeObj.running b)
                                    (Z.to_nat (TaskObj.id t)) = Some v)
             (b0 :: rest) runs /\
     Task.get_constraints self (b0 :: rest) w
     = (Ok (EAll [EEq (EVar x) (EConst (TaskObj.cpu t));
                  EEq (EVar y) (EConst (inject_Z (TaskObj.mem t)));
                  EAny (map (fun v => EAll [EEq (EVar v) ETrue]) runs)]),
        w)) /\
  ((BladeClass.num_tasks c <= TaskObj.id t)%Z ->
   Task.get_constraints self (b0 :: rest) w = (Raise IndexError, w)) /\
  (forall extra b' later,
     (0 <= TaskObj.id t < BladeClass.num_tasks c)%Z ->
     nth_error (blades w) extra = Some b' ->
     (Z.of_nat (length (BladeObj.running b')) <= TaskObj.id t)%Z ->
     Task.get_constraints self ((b0 :: rest) ++ extra :: later) w
     = (Raise IndexError, w)).
Proof.
  intros Hw Ht Hc Hbs.
  assert (Hrange : (0 <= TaskObj.id t < BladeClass.num_tasks c)%Z ->
            TaskObj.id t = Z.of_nat (Z.to_nat (TaskObj.id t)) /\
            (Z.of_nat (Z.to_nat (TaskObj.id t)) < BladeClass.num_tasks c)%Z)
    by lia.
  split; [|split].
  - intros Hid. destruct (Hrange Hid) as [Hk Hlt].
    destruct (Task_get_constraints_run w self t cls c b0 rest
                (Z.to_nat (TaskObj.id t)) Hw Ht Hc Hbs Hk Hlt)
      as [x [y [Hx [Hy Hrun]]]].
    exists x, y, (map (running_at w (Z.to_nat (TaskObj.id t))) (b0 :: rest)).
    split; [exact Hx|]. split; [exact Hy|].
    split; [now apply running_at_candidates with (cls := cls) (c := c)|].
    rewrite Hrun. unfold placement. now rewrite map_map.
  - intros Hid.
    destruct (wf_class_slots _ _ _ Hw Hc) as [Hcpu _].
    inversion Hbs as [|? ? [b [Hb Hty]] _]; subst.
    unfold Task.get_constraints, get_blade, get_class, get_task.
    erewrite bind_Ok by (apply (getitem_nth (b0 :: rest) 0%nat); reflexivity).
    unfold bind at 1. unfold deref at 1. rewrite Hb.
    unfold bind at 1. unfold deref at 1. rewrite Hc.
    unfold bind at 1. unfold deref at 1. rewrite Ht.
    apply bind_Raise.
    destruct (BladeClass.cpu c) as [|v vs] eqn:E.
    + apply getitem_nil.
    + apply getitem_high. simpl length in *. lia.
  - intros extra b' later Hid Hextra Hshort.
    destruct (Hrange Hid) as [Hk Hlt].
    set (k := Z.to_nat (TaskObj.id t)) in *.
    destruct (wf_class_slots _ _ _ Hw Hc) as [Hcpu Hmem].
    pose proof Hbs as Hall.
    inversion Hbs as [|? ? [b [Hb Hty]] _]; subst.
    unfold Task.get_constraints, get_blade, get_class, get_task.
    erewrite bind_Ok
      by (apply (getitem_nth ((b0 :: rest) ++ extra :: later) 0%nat);
          reflexivity).
    unfold bind at 1. unfold deref at 1. rewrite Hb.
    unfold bind at 1. unfold deref at 1. rewrite Hc.
    unfold bind at 1. unfold deref at 1. rewrite Ht.
    rewrite Hk.
    erewrite bind_Ok
      by (apply getitem_nth; apply nth_error_nth' with (d := Var SBool 0); lia).
    erewrite bind_Ok
      by (apply getitem_nth; apply nth_error_nth' with (d := Var SBool 0); lia).
    apply bind_Raise. unfold Task._assign_blades. apply bind_Raise.
    apply mapM_app_Raise.
    + intros r Hr. unfold candidates in Hall. rewrite Forall_forall in Hall.
      destruct (Hall r Hr) as [br [Hbr Htyr]].
      eexists. apply assign_blade_run with (t := t) (b := br) (k := k);
        try assumption.
      rewrite (wf_blade_slots _ _ _ _ Hw Hbr ltac:(rewrite Htyr; exact Hc)).
      lia.
    + unfold Task._assign_blade, get_blade, get_task.
      unfold bind at 1. unfold deref at 1. rewrite Hextra.
      unfold bind at 1. unfold deref at 1. rewrite Ht.
      apply bind_Raise. apply getitem_high. exact Hshort.
Qed.

(** ** Construction is read-only *)

Lemma reads_Blade_cond self i rsrc : reads (Blade._cond self i rsrc).
Proof. unfold Blade._cond. read_only. Qed.

Lemma reads_Blade_get_constraints self : reads (Blade.get_constraints self).
Proof.
  unfold Blade.get_constraints, Blade._cond_cpu, Blade._cond_mem, Blade._cond.
  read_only.
Qed.

Lemma reads_Blade_get_global_constraints cls :
  reads (Blade.get_global_constraints cls).
Proof. unfold Blade.get_global_constraints. read_only. Qed.

Lemma reads_Task_get_constraints self bs :
  reads (Task.get_constraints self bs).
Proof.
  unfold Task.get_constraints, Task._assign_blades, Task._assign_blade.
  read_only.
Qed.

(** C8. Constraint construction is pure: [Blade.get_constraints],
    [Blade.get_global_constraints] and [Task.get_constraints] hand back the
    store exactly as they received it, whether they return a constraint or
    raise: every field of every [Blade] instance, the class variables and
    every [Task] instance are unchanged, and no variable is allocated. *)
Theorem C8_construction_is_pure :
  (forall self w, snd (Blade.get_constraints self w) = w) /\
  (forall cls w, snd (Blade.get_global_constraints cls w) = w) /\
  (forall self bs w, snd (Task.get_constraints self bs w) = w).
Proof.
  split; [|split].
  - intros self. apply reads_Blade_get_constraints.
  - intros cls. apply reads_Blade_get_global_constraints.
  - intros self bs. apply reads_Task_get_constraints.
Qed.

(** ** Invalid configurations *)

(** C3, as the claim states it, fails: [define_blade(0)] returns a class. *)
Lemma C3_counterexample :
  (0 <= 0)%Z /\
  define_blade 0 empty_world
  = (Ok 0%nat, World 0 [BladeClass.Make 0 [] []] [] []) /\
  fst (define_blade 0 empty_world) <> Raise ConfigurationError.
Proof.
  split; [lia|]. split; [reflexivity|]. cbn. discriminate.
Qed.

(** C3, amended. For every [num_tasks <= 0], [define_blade] raises nothing:
    it returns a new pool class that records [num_tasks] and has no slot
    (empty [cpu] and [mem] arrays), and it allocates no variable. *)
Theorem C3_define_blade_nonpositive num_tasks w :
  (num_tasks <= 0)%Z ->
  define_blade num_tasks w
  = (Ok (length (classes w)),
     World (next_var w)
           (classes w ++ [BladeClass.Make num_tasks [] []])
           (blades w) (tasks w)).
Proof.
  intros Hn. rewrite define_blade_run. unfold new_class_of.
  replace (Z.to_nat num_tasks) with 0%nat by lia.
  cbn. now rewrite !Nat.add_0_r.
Qed.

Lemma Task_get_constraints_nil self w :
  Task.get_constraints self [] w = (Raise IndexError, w).
Proof.
  unfold Task.get_constraints. apply bind_Raise. apply getitem_nil.
Qed.

(** C4, as the claim states it, fails: on an empty candidate list the
    exception is [IndexError], raised by [blades[0]]. *)
Lemma C4_counterexample :
  Task.get_constraints 0 [] (snd (Task.__init__ 0 1 1 empty_world))
  = (Raise IndexError, snd (Task.__init__ 0 1 1 empty_world)) /\
  fst (Task.get_constraints 0 [] (snd (Task.__init__ 0 1 1 empty_world)))
  <> Raise ConfigurationError.
Proof. split; [reflexivity|]. cbn. discriminate. Qed.

(** C4, amended. For every task, building its constraints over an empty
    candidate list raises [IndexError] and returns no constraint; the store
    is left as it was. *)
Theorem C4_empty_candidates_raise self w :
  Task.get_constraints self [] w = (Raise IndexError, w).
Proof. apply Task_get_constraints_nil. Qed.

(** ** The result interpreter *)

Lemma range_sorted n : StronglySorted Z.lt (range n).
Proof.
  unfold range. generalize (Z.to_nat n) as k, 0%nat as s.
  induction k as [|k IH]; intros s; simpl; constructor.
  - apply IH.
  - apply Forall_forall. intros i Hi. apply in_map_iff in Hi.
    destruct Hi as [j [<- Hj]]. apply in_seq in Hj. lia.
Qed.

Lemma filter_sorted {A} (R : A -> A -> Prop) (p : A -> bool) l :
  StronglySorted R l -> StronglySorted R (filter p l).
Proof.
  induction 1 as [|a l Hl IH Ha]; simpl; [constructor|].
  destruct (p a); [|exact IH]. constructor; [exact IH|].
  rewrite Forall_forall in *. intros x Hx. apply filter_In in Hx.
  apply Ha. tauto.
Qed.

Lemma worked_per_blade_run alloc w cls c bs :
  wf_world w ->
  nth_error (classes w) cls = Some c ->
  candidates w cls bs ->
  worked_per_blade alloc bs (BladeClass.num_tasks c) w
  = (Ok (map (worked_on alloc w (BladeClass.num_tasks c)) bs), w).
Proof.
  intros Hw Hc Hbs. unfold worked_per_blade.
  apply mapM_Ok with (g := worked_on alloc w (BladeClass.num_tasks c)).
  intros r Hr. unfold candidates in Hbs. rewrite Forall_forall in Hbs.
  destruct (Hbs r Hr) as [b [Hb Hty]]. subst cls.
  unfold worked_on.
  apply filterM_Ok with
    (q := fun i => truthy (alloc (running_at w (Z.to_nat i) r))).
  intros i Hi. apply in_range in Hi.
  unfold get_blade. unfold bind at 1. unfold deref at 1. rewrite Hb.
  pose proof (wf_blade_slots _ _ _ _ Hw Hb Hc) as Hlen.
  rewrite <- (Z2Nat.id i) at 1 by lia.
  erewrite bind_Ok.
  2:{ apply getitem_nth. apply nth_error_nth' with (d := Var SBool 0). lia. }
  unfold running_at. rewrite Hb. reflexivity.
Qed.

(** C7. For each blade of the pool and any assignment, the result
    interpreter produces the sequence, in ascending order of task id from
    [0] to [num_tasks - 1], of exactly those ids [i] whose [running[i]] on
    that blade is true under the assignment. *)
Theorem C7_result_interpreter alloc w cls c bs :
  wf_world w ->
  nth_error (classes w) cls = Some c ->
  candidates w cls bs ->
  exists out,
    worked_per_blade alloc bs (BladeClass.num_tasks c) w = (Ok out, w) /\
    length out = length bs /\
    forall k blade,
      nth_error bs k = Some blade ->
      exists ids,
        nth_error out k = Some ids /\
        StronglySorted Z.lt ids /\
        forall i, In i ids <->
                  (0 <= i < BladeClass.num_tasks c)%Z /\
                  truthy (alloc (running_at w (Z.to_nat i) blade)) = true.
Proof.
  intros Hw Hc Hbs.
  exists (map (worked_on alloc w (BladeClass.num_tasks c)) bs).
  split; [now apply worked_per_blade_run with (cls := cls)|].
  split; [apply length_map|].
  intros k blade Hk.
  exists (worked_on alloc w (BladeClass.num_tasks c) blade).
  split; [now apply map_nth_error|]. split.
  - apply filter_sorted, range_sorted.
  - intros i. unfold worked_on. rewrite filter_In, in_range. reflexivity.
Qed.

(** ** Which variables a constraint touches *)

Lemma map_ext_Forall {A B} (f g : A -> B) l :
  Forall (fun a => f a = g a) l -> map f l = map g l.
Proof. induction 1; simpl; congruence. Qed.

Lemma forallb_ext_Forall {A} (f g : A -> bool) l :
  Forall (fun a => f a = g a) l -> forallb f l = forallb g l.
Proof. induction 1; simpl; congruence. Qed.

Lemma existsb_ext_Forall {A} (f g : A -> bool) l :
  Forall (fun a => f a = g a) l -> existsb f l = existsb g l.
Proof. induction 1; simpl; congruence. Qed.

Lemma Forall_not_in_flat_map (P : expr -> Prop) v l :
  Forall (fun e => ~ In v (vars e) -> P e) l ->
  ~ In v (flat_map vars l) -> Forall P l.
Proof.
  intros H Hv. rewrite Forall_forall in *. intros e He. apply H; [exact He|].
  intros Hin. apply Hv. apply in_flat_map. exists e. tauto.
Qed.

(** A constraint does not depend on a variable it does not mention. *)
Lemma eval_override rho v x e :
  ~ In v (vars e) -> eval (override rho v x) e = eval rho e.
Proof.
  induction e as [u|q| |l IH|c a b IHc IHa IHb|l IH|a b IHa IHb|a b IHa IHb
                 |a b IHa IHb|l IH|l IH] using expr_nested_ind;
    cbn [vars eval]; intros Hv;
    try rewrite !in_app_iff in Hv.
  - unfold override. destruct (var_eq_dec u v) as [->|]; [|reflexivity].
    exfalso. apply Hv. now left.
  - reflexivity.
  - reflexivity.
  - f_equal. f_equal. apply map_ext_Forall.
    eapply Forall_impl; [|exact (Forall_not_in_flat_map _ _ _ IH Hv)].
    intros e He. cbn beta in He. now rewrite He.
  - rewrite IHc, IHa, IHb by tauto. reflexivity.
  - f_equal. f_equal. apply map_ext_Forall.
    eapply Forall_impl; [|exact (Forall_not_in_flat_map _ _ _ IH Hv)].
    intros e He. cbn beta in He. now rewrite He.
  - rewrite IHa, IHb by tauto. reflexivity.
  - rewrite IHa, IHb by tauto. reflexivity.
  - rewrite IHa, IHb by tauto. reflexivity.
  - f_equal. apply forallb_ext_Forall.
    eapply Forall_impl; [|exact (Forall_not_in_flat_map _ _ _ IH Hv)].
    intros e He. cbn beta in He. now rewrite He.
  - f_equal. apply existsb_ext_Forall.
    eapply Forall_impl; [|exact (Forall_not_in_flat_map _ _ _ IH Hv)].
    intros e He. cbn beta in He. now rewrite He.
Qed.

(** Reading back a comprehension whose body only reads. *)
Lemma mapM_inv {A B} (f : A -> M B) l ys w w' :
  (forall a, reads (f a)) ->
  mapM f l w = (Ok ys, w') ->
  w' = w /\ Forall2 (fun a y => f a w = (Ok y, w)) l ys.
Proof.
  intros Hf. revert ys w'. induction l as [|a l IH]; intros ys w' H; simpl in H.
  - inversion H. subst. split; [reflexivity | constructor].
  - apply bind_inv in H. destruct H as [y [w1 [Hy H]]].
    apply bind_inv in H. destruct H as [ys' [w2 [Hys H]]].
    inversion H. subst. clear H.
    pose proof (Hf a w) as Ha. rewrite Hy in Ha. simpl in Ha. subst w1.
    destruct (IH _ _ Hys) as [-> HF]. split; [reflexivity|].
    constructor; assumption.
Qed.

Lemma deref_inv {A} (table : world -> list A) r o w w' :
  deref table r w = (Ok o, w') -> w' = w /\ nth_error (table w) r = Some o.
Proof.
  unfold deref. destruct (nth_error (table w) r); intros H; inversion H.
  now subst.
Qed.

(** In a list without duplicates assembled from parts, parts at different
    positions share nothing. *)
Lemma NoDup_flat_map_apart {A B} (f : A -> list B) l i j a b x :
  NoDup (flat_map f l) -> i <> j ->
  nth_error l i = Some a -> nth_error l j = Some b ->
  In x (f a) -> ~ In x (f b).
Proof.
  revert i j. induction l as [|h l IH]; intros i j Hnd Hij Hi Hj Ha Hb.
  - destruct i; discriminate.
  - simpl in Hnd.
    assert (Hsep : forall y, In y (f h) -> ~ In y (flat_map f l)).
    { intros y Hy Hy'. revert Hnd Hy Hy'. generalize (flat_map f l) as r.
      induction (f h) as [|z zs IHz]; simpl; intros r Hnd Hy Hy'.
      - contradiction.
      - inversion Hnd as [|? ? Hz Hrest]; subst. destruct Hy as [->|Hy].
        + apply Hz. apply in_or_app. now right.
        + exact (IHz r Hrest Hy Hy'). }
    destruct i as [|i], j as [|j]; simpl in Hi, Hj.
    + congruence.
    + inversion Hi; subst. apply (Hsep x Ha).
      apply in_flat_map. exists b. split; [eapply nth_error_In; eauto|exact Hb].
    + inversion Hj; subst. apply (Hsep x Hb).
      apply in_flat_map. exists a. split; [eapply nth_error_In; eauto|exact Ha].
    + apply (IH i j); try assumption; [|congruence].
      eapply NoDup_app_remove_l; exact Hnd.
Qed.

Lemma getitem_In {A} (l : list A) i a w w' :
  getitem l i w = (Ok a, w') -> w' = w /\ In a l.
Proof.
  intros H. apply getitem_Ok in H. destruct H as [-> [_ H]].
  split; [reflexivity | eapply nth_error_In; exact H].
Qed.

Lemma assign_blade_inv w self r e w' :
  Task._assign_blade self r w = (Ok e, w') ->
  exists v, In v (flat_map BladeObj.running (blades w)) /\
            e = EAll [EEq (EVar v) ETrue].
Proof.
  unfold Task._assign_blade, get_blade, get_task. intros H.
  apply bind_inv in H. destruct H as [b [w1 [Hb H]]].
  apply deref_inv in Hb. destruct Hb as [-> Hb].
  apply bind_inv in H. destruct H as [t [w1 [Ht H]]].
  apply deref_inv in Ht. destruct Ht as [-> Ht].
  apply bind_inv in H. destruct H as [v [w1 [Hv H]]].
  apply getitem_In in Hv. destruct Hv as [-> Hv].
  inversion H. subst. exists v. split; [|reflexivity].
  apply in_flat_map. exists b. split; [eapply nth_error_In; exact Hb|exact Hv].
Qed.

(** What a successful run of [Task.get_constraints] has read. *)
Lemma Task_get_constraints_inv w self bs e w' :
  Task.get_constraints self bs w = (Ok e, w') ->
  exists b0 b c t x y cs,
    nth_error bs 0 = Some b0 /\
    nth_error (blades w) b0 = Some b /\
    nth_error (classes w) (BladeObj.type b) = Some c /\
    nth_error (tasks w) self = Some t /\
    In x (BladeClass.cpu c) /\ In y (BladeClass.mem c) /\
    e = EAll [EEq (EVar x) (EConst (TaskObj.cpu t));
              EEq (EVar y) (EConst (inject_Z (TaskObj.mem t)));
              EAny cs] /\
    Forall (fun ce => exists v,
                In v (flat_map BladeObj.running (blades w)) /\
                ce = EAll [EEq (EVar v) ETrue]) cs.
Proof.
  unfold Task.get_constraints, Task._assign_blades, get_blade, get_class,
    get_task. intros H.
  apply bind_inv in H. destruct H as [b0 [w1 [Hb0 H]]].
  apply getitem_Ok in Hb0. destruct Hb0 as [-> [_ Hb0]]. simpl in Hb0.
  apply bind_inv in H. destruct H as [b [w1 [Hb H]]].
  apply deref_inv in Hb. destruct Hb as [-> Hb].
  apply bind_inv in H. destruct H as [c [w1 [Hc H]]].
  apply deref_inv in Hc. destruct Hc as [-> Hc].
  apply bind_inv in H. destruct H as [t [w1 [Ht H]]].
  apply deref_inv in Ht. destruct Ht as [-> Ht].
  apply bind_inv in H. destruct H as [x [w1 [Hx H]]].
  apply getitem_In in Hx. destruct Hx as [-> Hx].
  apply bind_inv in H. destruct H as [y [w1 [Hy H]]].
  apply getitem_In in Hy. destruct Hy as [-> Hy].
  apply bind_inv in H. destruct H as [placed [w1 [Hp H]]].
  apply bind_inv in Hp. destruct Hp as [cs [w2 [Hcs Hp]]].
  inversion Hp. subst. clear Hp. inversion H. subst. clear H.
  apply mapM_inv in Hcs.
  2:{ intros a. unfold Task._assign_blade. read_only. }
  destruct Hcs as [-> Hcs].
  exists b0, b, c, t, x, y, cs. repeat split; try assumption.
  clear -Hcs. induction Hcs as [|r ce bs cs Hr _ IH]; constructor.
  - eapply assign_blade_inv; exact Hr.
  - exact IH.
Qed.

(** C9. [Task.get_constraints] takes the cost variables from the class of
    the first candidate only.  Whenever it returns a constraint, the two
    cost equalities are on slot variables of the first blade's class, and a
    cost variable of any other class of the store does not occur in the
    constraint and is not constrained by it: changing its value never
    changes whether the constraint holds. *)
Theorem C9_costs_bound_to_first_class w self bs b0 b e cls' c' v :
  wf_world w ->
  nth_error bs 0 = Some b0 ->
  nth_error (blades w) b0 = Some b ->
  Task.get_constraints self bs w = (Ok e, w) ->
  cls' <> BladeObj.type b ->
  nth_error (classes w) cls' = Some c' ->
  In v (class_vars c') ->
  (exists c t x y placed,
     nth_error (classes w) (BladeObj.type b) = Some c /\
     nth_error (tasks w) self = Some t /\
     In x (BladeClass.cpu c) /\ In y (BladeClass.mem c) /\
     e = EAll [EEq (EVar x) (EConst (TaskObj.cpu t));
               EEq (EVar y) (EConst (inject_Z (TaskObj.mem t)));
               placed]) /\
  ~ In v (vars e) /\
  forall rho q, holds (override rho v q) e = holds rho e.
Proof.
  intros Hw Hb0 Hb Hrun Hne Hc' Hv.
  destruct (Task_get_constraints_inv _ _ _ _ _ Hrun)
    as [b0' [b' [c [t [x [y [cs [Hb0' [Hb' [Hc [Ht [Hx [Hy [He Hcs]]]]]]]]]]]]]].
  rewrite Hb0 in Hb0'. inversion Hb0'. subst b0'.
  rewrite Hb in Hb'. inversion Hb'. subst b'.
  assert (Hfree : ~ In v (vars e)).
  { pose proof (wf_distinct _ Hw) as Hnd. unfold all_vars in Hnd.
    assert (Hnc : ~ In v (class_vars c)).
    { apply (NoDup_flat_map_apart class_vars (classes w) cls'
               (BladeObj.type b) c' c v); try assumption.
      eapply NoDup_app_remove_r; exact Hnd. }
    assert (Hnr : ~ In v (flat_map BladeObj.running (blades w))).
    { intros Hin.
      assert (Hcv : In v (flat_map class_vars (classes w))).
      { apply in_flat_map. exists c'. split; [|exact Hv].
        eapply nth_error_In; exact Hc'. }
      revert Hnd Hcv Hin. generalize (flat_map class_vars (classes w)) as l1.
      induction l1 as [|z l1 IH]; simpl; intros Hnd Hcv Hin; [contradiction|].
      inversion Hnd as [|? ? Hz Hrest]; subst. destruct Hcv as [->|Hcv].
      - apply Hz. apply in_or_app. now right.
      - exact (IH Hrest Hcv Hin). }
    subst e. simpl. rewrite app_nil_r. intros [->|[->|Hin]].
    - apply Hnc. unfold class_vars. apply in_or_app. now left.
    - apply Hnc. unfold class_vars. apply in_or_app. now right.
    - apply in_flat_map in Hin. destruct Hin as [ce [Hce Hin]].
      rewrite Forall_forall in Hcs. destruct (Hcs ce Hce) as [r [Hr ->]].
      cbn in Hin. destruct Hin as [->|[]]. exact (Hnr Hr). }
  split; [|split].
  - exists c, t, x, y, (EAny cs). repeat split; assumption.
  - exact Hfree.
  - intros rho q. unfold holds. now rewrite eval_override.
Qed.

(** ** The pool-wide constraint *)

Lemma map_seq_nth {A C} (h : A -> C) (l : list A) (g : nat -> C) s :
  (forall k a, nth_error l k = Some a -> g (s + k)%nat = h a) ->
  map g (seq s (length l)) = map h l.
Proof.
  revert s. induction l as [|a l IH]; intros s Hg; simpl; [reflexivity|].
  f_equal.
  - rewrite <- (Hg 0%nat a eq_refl). f_equal. lia.
  - apply IH. intros k a' Ha. rewrite <- (Hg (S k) a' Ha). f_equal. lia.
Qed.

Lemma mapM_getitem {A} (h : A -> expr) (l : list A) w :
  mapM (fun i => x <- getitem l i ;; ret (h x))
       (range (Z.of_nat (length l))) w
  = (Ok (map h l), w).
Proof.
  destruct l as [|d l']; [reflexivity|].
  set (l := d :: l').
  rewrite mapM_Ok with (g := fun i => h (nth (Z.to_nat i) l d)).
  - f_equal. f_equal. unfold range. rewrite map_map, Nat2Z.id.
    apply map_seq_nth. intros k a Ha. cbn beta.
    rewrite Nat.add_0_l, Nat2Z.id.
    now rewrite (nth_error_nth _ _ d Ha).
  - intros i Hi. apply in_range in Hi.
    rewrite <- (Z2Nat.id i) at 1 by lia.
    erewrite bind_Ok; [reflexivity|].
    apply getitem_nth. apply nth_error_nth'. lia.
Qed.

Lemma get_global_constraints_run w cls c :
  wf_world w ->
  nth_error (classes w) cls = Some c ->
  Blade.get_global_constraints cls w = (Ok (global_constraint c), w).
Proof.
  intros Hw Hc. destruct (wf_class_slots _ _ _ Hw Hc) as [Hcpu Hmem].
  unfold Blade.get_global_constraints, get_class.
  unfold bind at 1. unfold deref at 1. rewrite Hc.
  assert (Hr1 : range (BladeClass.num_tasks c)
                = range (Z.of_nat (length (BladeClass.cpu c)))).
  { unfold range. now rewrite Hcpu, Nat2Z.id. }
  assert (Hr2 : range (BladeClass.num_tasks c)
                = range (Z.of_nat (length (BladeClass.mem c)))).
  { unfold range. now rewrite Hmem, Nat2Z.id. }
  rewrite Hr1 at 1.
  erewrite bind_Ok by apply (mapM_getitem nonneg).
  rewrite Hr2.
  erewrite bind_Ok by apply (mapM_getitem nonneg).
  reflexivity.
Qed.

Lemma holds_global_constraint rho c :
  holds rho (global_constraint c) = true <->
  forall v, In v (class_vars c) -> (0 <= number (rho v))%Q.
Proof.
  unfold global_constraint, class_vars. rewrite holds_EAll.
  rewrite forallb_forall. split.
  - intros H v Hv.
    assert (Hin : In (nonneg v)
                     (map nonneg (BladeClass.cpu c)
                      ++ map nonneg (BladeClass.mem c))).
    { rewrite <- map_app. now apply in_map. }
    specialize (H _ Hin). unfold holds, nonneg in H. cbn in H.
    now apply Qle_bool_iff in H.
  - intros H e He. rewrite <- map_app in He. apply in_map_iff in He.
    destruct He as [v [<- Hv]]. unfold holds, nonneg. cbn.
    apply Qle_bool_iff. now apply H.
Qed.

(** ** The run of [main] up to the solver *)

Lemma make_tasks_run (task_cpu : list Q) (task_mem : list Z) ids w :
  (forall i, In i ids ->
             (0 <= i < Z.of_nat (length task_cpu))%Z /\
             (0 <= i < Z.of_nat (length task_mem))%Z) ->
  mapM (fun i => c <- getitem task_cpu i ;;
                 m <- getitem task_mem i ;;
                 Task.__init__ i c m) ids w
  = (Ok (seq (length (tasks w)) (length ids)),
     World (next_var w) (classes w) (blades w)
           (tasks w ++ map (task_of task_cpu task_mem) ids)).
Proof.
  revert w. induction ids as [|i ids IH]; intros w Hin; simpl.
  - unfold ret. rewrite app_nil_r. destruct w; reflexivity.
  - destruct (Hin i (or_introl eq_refl)) as [Hc Hm].
    unfold bind at 1.
    assert (Hstep : (c <- getitem task_cpu i ;;
                     m <- getitem task_mem i ;;
                     Task.__init__ i c m) w
                    = (Ok (length (tasks w)),
                       World (next_var w) (classes w) (blades w)
                             (tasks w ++ [task_of task_cpu task_mem i]))).
    { erewrite bind_Ok by (apply getitem_pos with (d := 0%Q); lia).
      erewrite bind_Ok by (apply getitem_pos with (d := 0%Z); lia).
      reflexivity. }
    rewrite Hstep. unfold bind at 1.
    rewrite IH by (intros j Hj; apply Hin; now right).
    simpl. unfold ret. rewrite length_app. simpl.
    rewrite <- app_assoc. simpl.
    replace (length (tasks w) + 1)%nat with (S (length (tasks w))) by lia.
    reflexivity.
Qed.

(** Instantiating a pool class: the blades made are candidates of that
    class, the store stays well formed, and nothing but the blade table and
    the variable counter moves. *)
Lemma make_blades_run {A} cls c num_cpu total_mem (l : list A) w :
  wf_world w ->
  nth_error (classes w) cls = Some c ->
  exists bs w',
    mapM (fun _ => Blade.__init__ cls num_cpu total_mem) l w = (Ok bs, w') /\
    wf_world w' /\
    classes w' = classes w /\ tasks w' = tasks w /\
    (exists ext, blades w' = blades w ++ ext) /\
    candidates w' cls bs /\
    length bs = length l.
Proof.
  revert w. induction l as [|x l IH]; intros w Hw Hc; simpl.
  - exists [], w.
    split; [reflexivity|]. split; [exact Hw|].
    split; [reflexivity|]. split; [reflexivity|].
    split; [exists []; now rewrite app_nil_r|].
    split; [constructor | reflexivity].
  - pose proof (wf_Blade_init cls num_cpu total_mem w Hw) as Hw1.
    pose proof (Blade_init_run cls c num_cpu total_mem w Hc) as Hrun.
    rewrite Hrun in Hw1. simpl in Hw1.
    set (w1 := World (next_var w + Z.to_nat (BladeClass.num_tasks c))
                     (classes w)
                     (blades w ++ [new_blade_of cls c num_cpu total_mem w])
                     (tasks w)) in *.
    destruct (IH w1 Hw1 Hc) as [bs [w' [Hm [Hw' [Hcl [Hts [[ext Hext] [Hcand Hlen]]]]]]]].
    exists (length (blades w) :: bs), w'.
    split; [|split; [exact Hw'|split; [exact Hcl|split; [exact Hts|split;
      [|split]]]]].
    + unfold bind at 1. rewrite Hrun. fold w1.
      unfold bind at 1. rewrite Hm. reflexivity.
    + exists (new_blade_of cls c num_cpu total_mem w :: ext).
      rewrite Hext. simpl. now rewrite <- app_assoc.
    + constructor; [|exact Hcand].
      exists (new_blade_of cls c num_cpu total_mem w). split; [|reflexivity].
      rewrite Hext. simpl. rewrite <- app_assoc. simpl.
      rewrite nth_error_app2 by lia. now rewrite Nat.sub_diag.
    + simpl. now rewrite Hlen.
Qed.

Lemma wf_world_tasks nv cs bs ts ts' :
  wf_world (World nv cs bs ts) -> wf_world (World nv cs bs ts').
Proof. intros [H1 H2 H3 H4]. split; assumption. Qed.

(** [build] first makes the objects and then only reads: started in a
    well-formed store with cost lists of one length, it reaches a
    well-formed store [w] holding the new pool class [c], the new blades
    [bs] and the new tasks [ts], and from there on it is the construction of
    the constraints in [w]. *)
Lemma build_run num_blades num_cpus total_mem task_cpu task_mem w0 :
  wf_world w0 ->
  length task_cpu = length task_mem ->
  exists ts bs c per w,
    wf_world w /\
    nth_error (classes w) (length (classes w0)) = Some c /\
    BladeClass.num_tasks c = Z.of_nat (length task_cpu) /\
    candidates w (length (classes w0)) bs /\
    length bs = Z.to_nat num_blades /\
    ts = seq (length (tasks w0)) (length task_cpu) /\
    tasks w = tasks w0 ++ map (task_of task_cpu task_mem)
                             (range (Z.of_nat (length task_cpu))) /\
    Forall2 (fun r e => exists b, nth_error (blades w) r = Some b /\
                                  e = capacity_constraint b c) bs per /\
    build num_blades num_cpus total_mem task_cpu task_mem w0
    = (tc <- mapM (fun task => Task.get_constraints task bs) ts ;;
       ret (bs, global_constraint c :: per, tc)) w.
Proof.
  intros Hw0 Hlen.
  set (n := Z.of_nat (length task_cpu)).
  pose proof (make_tasks_run task_cpu task_mem (range n) w0) as Htasks.
  assert (Hn : Z.to_nat n = length task_cpu) by apply Nat2Z.id.
  rewrite length_range, Hn in Htasks.
  set (w1 := World (next_var w0) (classes w0) (blades w0)
                   (tasks w0 ++ map (task_of task_cpu task_mem) (range n)))
    in *.
  assert (Hw1 : wf_world w1).
  { destruct w0. eapply wf_world_tasks. exact Hw0. }
  pose proof (define_blade_run n w1) as Hdef.
  pose proof (wf_define_blade n w1 Hw1) as Hw2. rewrite Hdef in Hw2.
  simpl in Hw2, Hdef.
  set (c := new_class_of n w1) in *.
  set (w2 := World (next_var w0 + Z.to_nat n + Z.to_nat n)
                   (classes w0 ++ [c]) (blades w0)
                   (tasks w0 ++ map (task_of task_cpu task_mem) (range n)))
    in *.
  assert (Hc2 : nth_error (classes w2) (length (classes w0)) = Some c).
  { simpl. rewrite nth_error_app2 by lia. now rewrite Nat.sub_diag. }
  destruct (make_blades_run (length (classes w0)) c num_cpus total_mem
              (range num_blades) w2 Hw2 Hc2)
    as [bs [w [Hm [Hw [Hcl [Hts [_ [Hcand Hbl]]]]]]]].
  assert (Hc : nth_error (classes w) (length (classes w0)) = Some c)
    by (rewrite Hcl; exact Hc2).
  set (g := fun r => match nth_error (blades w) r with
                     | Some b => capacity_constraint b c
                     | None => ETrue
                     end).
  assert (Hper : mapM Blade.get_constraints bs w = (Ok (map g bs), w)).
  { apply mapM_Ok. intros r Hr. unfold candidates in Hcand.
    rewrite Forall_forall in Hcand. destruct (Hcand r Hr) as [b [Hb Hty]].
    unfold g. rewrite Hb. apply Blade_get_constraints_run; try assumption.
    now rewrite Hty. }
  exists (seq (length (tasks w0)) (length task_cpu)), bs, c, (map g bs), w.
  split; [exact Hw|]. split; [exact Hc|]. split; [reflexivity|].
  split; [exact Hcand|]. split; [now rewrite Hbl, length_range|].
  split; [reflexivity|]. split; [exact Hts|]. split.
  - unfold candidates in Hcand. clear -Hcand.
    induction Hcand as [|r bs [b [Hb Hty]] _ IH]; simpl; constructor.
    + exists b. split; [exact Hb|]. unfold g. now rewrite Hb.
    + exact IH.
  - unfold build. rewrite <- Hlen, Nat.eqb_refl. cbn [negb].
    fold n. unfold bind at 1. rewrite Htasks.
    2:{ intros i Hi. apply in_range in Hi. unfold n in Hi. lia. }
    unfold bind at 1. rewrite Hdef.
    unfold bind at 1. rewrite Hm.
    erewrite bind_Ok by (apply get_global_constraints_run; eassumption).
    erewrite bind_Ok by exact Hper.
    reflexivity.
Qed.

(** What a successful [build] has made. *)
Lemma build_inv num_blades num_cpus total_mem task_cpu task_mem w0 bs rc tc w :
  wf_world w0 ->
  build num_blades num_cpus total_mem task_cpu task_mem w0
  = (Ok (bs, rc, tc), w) ->
  exists c per,
    wf_world w /\
    nth_error (classes w) (length (classes w0)) = Some c /\
    BladeClass.num_tasks c = Z.of_nat (length task_cpu) /\
    candidates w (length (classes w0)) bs /\
    length bs = Z.to_nat num_blades /\
    tasks w = tasks w0 ++ map (task_of task_cpu task_mem)
                             (range (Z.of_nat (length task_cpu))) /\
    Forall2 (fun r e => exists b, nth_error (blades w) r = Some b /\
                                  e = capacity_constraint b c) bs per /\
    rc = global_constraint c :: per /\
    Forall2 (fun task e => Task.get_constraints task bs w = (Ok e, w))
            (seq (length (tasks w0)) (length task_cpu)) tc.
Proof.
  intros Hw0 Hb.
  assert (Hlen : length task_cpu = length task_mem).
  { unfold build in Hb.
    destruct (Nat.eqb_spec (length task_cpu) (length task_mem)) as [E|E];
      [exact E|]. cbn in Hb. discriminate Hb. }
  destruct (build_run num_blades num_cpus total_mem task_cpu task_mem w0
              Hw0 Hlen)
    as [ts [bs' [c [per [w' [Hw [Hc [Hn [Hcand [Hbl [Hts [Htk [Hper Hrun]]]]]]]]]]]]].
  rewrite Hrun in Hb. apply bind_inv in Hb.
  destruct Hb as [tc' [w1 [Htc Hret]]].
  inversion Hret. subst. clear Hret.
  apply mapM_inv in Htc; [|intros a; apply reads_Task_get_constraints].
  destruct Htc as [-> Htc].
  exists c, per.
  split; [assumption|]. split; [assumption|]. split; [assumption|].
  split; [assumption|]. split; [assumption|]. split; [assumption|].
  split; [assumption|]. split; [reflexivity | assumption].
Qed.

Lemma capacity_is_not_global b c c' :
  capacity_constraint b c <> global_constraint c'.
Proof.
  unfold capacity_constraint, global_constraint. intros H. inversion H as [H'].
  destruct (BladeClass.cpu c') as [|x xs]; simpl in H'.
  - destruct (BladeClass.mem c') as [|y ys]; simpl in H'; discriminate H'.
  - discriminate H'.
Qed.

(** C5. In every successful run of [main]'s construction, the pool-wide
    non-negativity constraint is built by the class method, from the class
    alone, and is the first and only such element of the resource
    constraints: the others are one capacity constraint per blade.  It has
    one conjunct [cpu_cost[i] >= 0] per CPU slot and one [mem_cost[i] >= 0]
    per memory slot, for all [num_tasks] slots of each kind. *)
Theorem C5_global_constraint_once
    num_blades num_cpus total_mem task_cpu task_mem w0 bs rc tc w :
  wf_world w0 ->
  build num_blades num_cpus total_mem task_cpu task_mem w0
  = (Ok (bs, rc, tc), w) ->
  exists c per,
    nth_error (classes w) (length (classes w0)) = Some c /\
    Blade.get_global_constraints (length (classes w0)) w
    = (Ok (global_constraint c), w) /\
    rc = global_constraint c :: per /\
    length per = length bs /\
    ~ In (global_constraint c) per /\
    global_constraint c
    = EAll (map (fun v => EGe (EVar v) (EConst 0)) (BladeClass.cpu c)
            ++ map (fun v => EGe (EVar v) (EConst 0)) (BladeClass.mem c)) /\
    length (BladeClass.cpu c) = length task_cpu /\
    length (BladeClass.mem c) = length task_cpu /\
    forall rho,
      holds rho (global_constraint c) = true <->
      forall v, In v (BladeClass.cpu c ++ BladeClass.mem c) ->
                (0 <= number (rho v))%Q.
Proof.
  intros Hw0 Hb.
  destruct (build_inv _ _ _ _ _ _ _ _ _ _ Hw0 Hb)
    as [c [per [Hw [Hc [Hn [Hcand [Hbl [Htk [Hper [Hrc Htc]]]]]]]]]].
  destruct (wf_class_slots _ _ _ Hw Hc) as [Hcpu Hmem].
  exists c, per.
  split; [exact Hc|].
  split; [now apply get_global_constraints_run|].
  split; [exact Hrc|].
  split; [symmetry; eapply Forall2_length; exact Hper|].
  split.
  { intros Hin. clear -Hper Hin.
    induction Hper as [|r e bs per [b [_ He]] _ IH]; simpl in Hin.
    - contradiction.
    - destruct Hin as [Heq|Hin]; [|exact (IH Hin)].
      subst e. exact (capacity_is_not_global _ _ _ Heq). }
  split; [reflexivity|].
  split; [rewrite Hcpu, Hn; apply Nat2Z.id|].
  split; [rewrite Hmem, Hn; apply Nat2Z.id|].
  intros rho. apply holds_global_constraint.
Qed.

(** ** Placement under a satisfying assignment *)

(** C6, as the claim states it, fails: two blades of capacity (8, 128) and
    one task of cost (1, 1).  The assignment [all_on] satisfies every
    constructed constraint, and task 0 is reported for both blades. *)
Lemma C6_counterexample :
  exists bs rc tc w out,
    build 2 8 128 [1%Q] [1%Z] empty_world = (Ok (bs, rc, tc), w) /\
    Forall (fun e => holds all_on e = true) (rc ++ tc) /\
    worked_per_blade all_on bs 1 w = (Ok out, w) /\
    out = [[0%Z]; [0%Z]] /\
    ~ mutual_exclusion out.
Proof.
  eexists _, _, _, _, _.
  split; [vm_compute; reflexivity|].
  split; [repeat constructor|].
  split; [vm_compute; reflexivity|].
  split; [reflexivity|].
  intros H.
  apply (H 0%Z 0%nat 1%nat [0%Z] [0%Z]);
    [discriminate | reflexivity | reflexivity | now left | now left].
Qed.

Lemma Forall2_nth_error {A B} (R : A -> B -> Prop) l1 l2 k a :
  Forall2 R l1 l2 -> nth_error l1 k = Some a ->
  exists b, nth_error l2 k = Some b /\ R a b.
Proof.
  intros H. revert k. induction H as [|x y l1 l2 Hxy _ IH]; intros k Hk.
  - destruct k; discriminate.
  - destruct k as [|k]; simpl in *.
    + inversion Hk. subst. exists y. split; [reflexivity | exact Hxy].
    + exact (IH k Hk).
Qed.

Lemma eq_true_truthy v : value_eqb v (VBool true) = true -> truthy v = true.
Proof.
  destruct v as [b|q]; simpl.
  - destruct b; simpl; congruence.
  - intros H. apply Qeq_bool_iff in H. apply negb_true_iff.
    destruct (Qeq_bool q 0) eqn:E; [|reflexivity].
    apply Qeq_bool_iff in E. rewrite E in H. discriminate H.
Qed.

(** The ids reported for some blade are those the count counts. *)
Lemma union_is_worked_count rho w cls c bs :
  wf_world w ->
  nth_error (classes w) cls = Some c ->
  candidates w cls bs ->
  length (nodup Z.eq_dec
            (concat (map (worked_on rho w (BladeClass.num_tasks c)) bs)))
  = worked_count rho (map (running_of w) bs) (BladeClass.num_tasks c).
Proof.
  intros Hw Hc Hbs. unfold worked_count.
  apply Permutation_length. apply NoDup_Permutation.
  - apply NoDup_nodup.
  - apply NoDup_filter, NoDup_range.
  - intros i. rewrite nodup_In, in_concat, filter_In, in_range.
    unfold candidates in Hbs. rewrite Forall_forall in Hbs. split.
    + intros [ids [Hids Hi]]. apply in_map_iff in Hids.
      destruct Hids as [r [<- Hr]]. unfold worked_on in Hi.
      apply filter_In in Hi. destruct Hi as [Hi Ht].
      apply in_range in Hi. split; [exact Hi|].
      apply existsb_exists. exists (running_of w r).
      split; [now apply in_map|].
      destruct (Hbs r Hr) as [b [Hb Hty]]. subst cls.
      unfold running_of, running_at in *. rewrite Hb in *.
      pose proof (wf_blade_slots _ _ _ _ Hw Hb Hc) as Hlen.
      rewrite nth_error_nth' with (d := Var SBool 0) by lia. exact Ht.
    + intros [Hi Hex]. apply existsb_exists in Hex.
      destruct Hex as [running [Hrun Ht]]. apply in_map_iff in Hrun.
      destruct Hrun as [r [<- Hr]].
      exists (worked_on rho w (BladeClass.num_tasks c) r).
      split; [now apply in_map|].
      unfold worked_on. apply filter_In. split; [now apply in_range|].
      destruct (Hbs r Hr) as [b [Hb Hty]]. subst cls.
      unfold running_of, running_at in *. rewrite Hb in *.
      pose proof (wf_blade_slots _ _ _ _ Hw Hb Hc) as Hlen.
      rewrite nth_error_nth' with (d := Var SBool 0) in Ht by lia. exact Ht.
Qed.

(** Under an assignment that satisfies a task's constraint, the task's id is
    reported for one of its candidates. *)
Lemma placed_on_a_candidate rho w cls c bs self t (i : nat) e :
  wf_world w ->
  nth_error (classes w) cls = Some c ->
  candidates w cls bs ->
  nth_error (tasks w) self = Some t ->
  TaskObj.id t = Z.of_nat i ->
  (Z.of_nat i < BladeClass.num_tasks c)%Z ->
  Task.get_constraints self bs w = (Ok e, w) ->
  holds rho e = true ->
  exists r, In r bs /\
            In (Z.of_nat i) (worked_on rho w (BladeClass.num_tasks c) r).
Proof.
  intros Hw Hc Hbs Ht Hid Hi Hrun He.
  destruct bs as [|b0 rest].
  - rewrite Task_get_constraints_nil in Hrun. discriminate Hrun.
  - destruct (Task_get_constraints_run w self t cls c b0 rest i
                Hw Ht Hc Hbs Hid Hi) as [x [y [_ [_ Hrun']]]].
    rewrite Hrun' in Hrun. inversion Hrun. subst e. clear Hrun.
    rewrite holds_EAll in He. cbn [forallb] in He.
    apply andb_true_iff in He. destruct He as [_ He].
    apply andb_true_iff in He. destruct He as [_ He].
    rewrite andb_true_r in He. apply holds_placement in He.
    destruct He as [r [Hr Hv]]. exists r. split; [exact Hr|].
    unfold worked_on. apply filter_In. split; [apply in_range; lia|].
    rewrite Nat2Z.id. now apply eq_true_truthy.
Qed.

(** C6, amended. For every assignment satisfying the constraint system that
    [main] constructs, every task id is reported for at least one blade
    (nothing in the constraints keeps it from being reported for several,
    and the program asserts nothing about it), and the union of the
    per-blade sequences, deduplicated, has size equal to the worked count,
    which is then the number of tasks. *)
Theorem C6_every_task_placed
    num_blades num_cpus total_mem task_cpu task_mem w0 bs rc tc w rho :
  wf_world w0 ->
  build num_blades num_cpus total_mem task_cpu task_mem w0
  = (Ok (bs, rc, tc), w) ->
  Forall (fun e => holds rho e = true) (rc ++ tc) ->
  exists out,
    worked_per_blade rho bs (Z.of_nat (length task_cpu)) w = (Ok out, w) /\
    (forall i, (0 <= i < Z.of_nat (length task_cpu))%Z ->
               exists k ids, nth_error out k = Some ids /\ In i ids) /\
    length (nodup Z.eq_dec (concat out))
    = worked_count rho (map (running_of w) bs)
                   (Z.of_nat (length task_cpu)) /\
    length (nodup Z.eq_dec (concat out)) = length task_cpu.
Proof.
  intros Hw0 Hb Hsat.
  destruct (build_inv _ _ _ _ _ _ _ _ _ _ Hw0 Hb)
    as [c [per [Hw [Hc [Hn [Hcand [Hbl [Htk [Hper [Hrc Htc]]]]]]]]]].
  apply Forall_app in Hsat. destruct Hsat as [_ Hsat].
  rewrite <- Hn.
  exists (map (worked_on rho w (BladeClass.num_tasks c)) bs).
  assert (Hplaced : forall i, (0 <= i < BladeClass.num_tasks c)%Z ->
            exists r, In r bs /\
                      In i (worked_on rho w (BladeClass.num_tasks c) r)).
  { intros i Hi. set (k := Z.to_nat i).
    assert (Hk : (k < length task_cpu)%nat) by (unfold k; lia).
    assert (Hts : nth_error (seq (length (tasks w0)) (length task_cpu)) k
                  = Some (length (tasks w0) + k)%nat).
    { rewrite nth_error_nth' with (d := 0%nat) by now rewrite length_seq.
      now rewrite seq_nth. }
    destruct (Forall2_nth_error _ _ _ _ _ Htc Hts) as [e [He Hrun]].
    assert (Hin : In e tc) by (eapply nth_error_In; exact He).
    rewrite Forall_forall in Hsat. specialize (Hsat e Hin).
    assert (Ht : nth_error (tasks w) (length (tasks w0) + k)
                 = Some (task_of task_cpu task_mem (Z.of_nat k))).
    { rewrite Htk, nth_error_app2 by lia.
      replace (length (tasks w0) + k - length (tasks w0))%nat with k by lia.
      apply map_nth_error. unfold range.
      apply map_nth_error.
      rewrite nth_error_nth' with (d := 0%nat)
        by (rewrite length_seq; lia).
      now rewrite seq_nth by lia. }
    replace i with (Z.of_nat k) by (unfold k; lia).
    eapply placed_on_a_candidate with (t := task_of task_cpu task_mem (Z.of_nat k));
      try eassumption; [reflexivity | lia]. }
  split; [now apply worked_per_blade_run with (cls := length (classes w0))|].
  split; [|split].
  - intros i Hi. destruct (Hplaced i Hi) as [r [Hr Hin]].
    apply In_nth_error in Hr. destruct Hr as [k Hk].
    exists k, (worked_on rho w (BladeClass.num_tasks c) r).
    split; [now apply map_nth_error | exact Hin].
  - now apply union_is_worked_count with (cls := length (classes w0)).
  - transitivity (length (range (BladeClass.num_tasks c)));
      [|rewrite length_range, Hn; apply Nat2Z.id].
    apply Permutation_length. apply NoDup_Permutation.
    + apply NoDup_nodup.
    + apply NoDup_range.
    + intros i. rewrite nodup_In, in_concat, in_range. split.
      * intros [ids [Hids Hi]]. apply in_map_iff in Hids.
        destruct Hids as [r [<- Hr]]. unfold worked_on in Hi.
        apply filter_In in Hi. destruct Hi as [Hi _].
        now apply in_range in Hi.
      * intros Hi. destruct (Hplaced i Hi) as [r [Hr Hin]].
        exists (worked_on rho w (BladeClass.num_tasks c) r).
        split; [now apply in_map | exact Hin].
Qed.

(** ** A concrete store *)

Lemma wf_sample : wf_world sample_world.
Proof.
  unfold sample_world.
  repeat first [ apply wf_Task_init | apply wf_Blade_init
               | apply wf_define_blade | apply wf_empty ].
Qed.

Lemma candidates_sample : candidates sample_world 0 [0; 1]%nat.
Proof.
  repeat constructor; eexists; split; reflexivity.
Qed.

Lemma C1_witness :
  exists cpus mems,
    Blade.get_constraints 0 sample_world
    = (Ok (EAll [ELe (ESum cpus) (EConst 8);
                 ELe (ESum [EList mems]) (EConst (inject_Z 128))]),
       sample_world) /\
    length cpus = 2%nat /\ length mems = 2%nat.
Proof.
  destruct (C1_blade_get_constraints sample_world 0 _ _
              wf_sample eq_refl eq_refl)
    as [cpus [mems [H [_ [_ [H1 [H2 _]]]]]]].
  exists cpus, mems. split; [exact H|]. split; [exact H1 | exact H2].
Defined.

Lemma C2_witness :
  exists x y e,
    Task.get_constraints 0 [0; 1]%nat sample_world = (Ok e, sample_world) /\
    e = EAll [EEq (EVar x) (EConst 1); EEq (EVar y) (EConst (inject_Z 1));
              EAny (map (fun r => EAll [EEq (EVar (running_at sample_world 0 r))
                                            ETrue]) [0; 1]%nat)].
Proof.
  destruct (C2_task_get_constraints sample_world 0 _ 0 _ 0 [1%nat] 0
              wf_sample eq_refl eq_refl candidates_sample eq_refl eq_refl)
    as [x [y [e [_ [_ [H [He _]]]]]]].
  exists x, y, e. split; [exact H | exact He].
Defined.

Lemma C3_witness :
  define_blade (-2) empty_world
  = (Ok 0%nat, World 0 [BladeClass.Make (-2) [] []] [] []).
Proof.
  apply (C3_define_blade_nonpositive (-2) empty_world). lia.
Defined.

Lemma sample_build_run :
  build 2 8 128 [1%Q] [1%Z] empty_world
  = (Ok (fst (fst (fst sample_built)), snd (fst (fst sample_built)),
         snd (fst sample_built)),
     snd sample_built).
Proof. vm_compute. reflexivity. Qed.

Lemma sample_satisfied :
  Forall (fun e => holds all_on e = true)
         (snd (fst (fst sample_built)) ++ snd (fst sample_built)).
Proof. repeat constructor. Qed.

Lemma C5_witness :
  exists c per,
    Blade.get_global_constraints 0 (snd sample_built)
    = (Ok (global_constraint c), snd sample_built) /\
    snd (fst (fst sample_built)) = global_constraint c :: per /\
    length per = 2%nat /\ ~ In (global_constraint c) per /\
    length (BladeClass.cpu c) = 1%nat /\ length (BladeClass.mem c) = 1%nat.
Proof.
  destruct (C5_global_constraint_once 2 8 128 [1%Q] [1%Z] empty_world
              _ _ _ _ wf_empty sample_build_run)
    as [c [per [_ [H1 [H0 [H2 [H3 [_ [H4 [H5 _]]]]]]]]]].
  exists c, per. split; [exact H1|]. split; [exact H0|].
  split; [exact H2|]. split; [exact H3|].
  split; [exact H4 | exact H5].
Defined.

Lemma C6_witness :
  exists out,
    worked_per_blade all_on (fst (fst (fst sample_built))) 1
                     (snd sample_built)
    = (Ok out, snd sample_built) /\
    length (nodup Z.eq_dec (concat out)) = 1%nat.
Proof.
  destruct (C6_every_task_placed 2 8 128 [1%Q] [1%Z] empty_world
              _ _ _ _ all_on wf_empty sample_build_run sample_satisfied)
    as [out [H [_ [_ Hn]]]].
  exists out. split; [exact H | exact Hn].
Defined.

Lemma C7_witness :
  exists out,
    worked_per_blade all_on [0; 1]%nat 2 sample_world = (Ok out, sample_world)
    /\ length out = 2%nat.
Proof.
  destruct (C7_result_interpreter all_on sample_world 0 _ [0; 1]%nat
              wf_sample eq_refl candidates_sample)
    as [out [H [Hl _]]].
  exists out. split; [exact H | exact Hl].
Defined.

Lemma C9_witness :
  exists e,
    Task.get_constraints 0 [0; 2]%nat sample_world = (Ok e, sample_world) /\
    ~ In (Var SReal 8) (vars e) /\
    forall rho q, holds (override rho (Var SReal 8) q) e = holds rho e.
Proof.
  eexists. split; [vm_compute; reflexivity|].
  assert (Hne : 1%nat <> 0%nat) by discriminate.
  destruct (C9_costs_bound_to_first_class sample_world 0 [0; 2]%nat 0 _ _
              1 _ (Var SReal 8) wf_sample eq_refl eq_refl eq_refl Hne
              eq_refl (or_introl eq_refl))
    as [_ [Hfree H]].
  split; [exact Hfree | exact H].
Defined.

Lemma wf_sample_mixed : wf_world sample_world_mixed.
Proof.
  unfold sample_world_mixed.
  apply wf_Task_init, wf_Blade_init, wf_define_blade, wf_sample.
Qed.

Lemma candidates_sample_mixed : candidates sample_world_mixed 0 [0; 1]%nat.
Proof. repeat constructor; eexists; split; reflexivity. Qed.

Lemma C10_witness :
  Task.get_constraints 2 [0; 1]%nat sample_world_mixed
  = (Ok (EAll [EEq (EVar (Var SReal 1)) (EConst 2);
               EEq (EVar (Var SInt 3)) (EConst (inject_Z 2));
               EAny [EAll [EEq (EVar (Var SBool 5)) ETrue];
                     EAll [EEq (EVar (Var SBool 7)) ETrue]]]),
     sample_world_mixed) /\
  Task.get_constraints 1 [0; 1]%nat sample_world_mixed
  = (Raise IndexError, sample_world_mixed) /\
  Task.get_constraints 2 [0; 1; 3]%nat sample_world_mixed
  = (Raise IndexError, sample_world_mixed).
Proof.
  split; [|split].
  - destruct (proj1 (C10_task_id_indexes_slots sample_world_mixed 2 _ 0 _ 0
                       [1%nat] wf_sample_mixed eq_refl eq_refl
                       candidates_sample_mixed))
      as [x [y [runs [Hx [Hy [Hruns H]]]]]].
    + simpl. lia.
    + inversion Hx. inversion Hy. subst x y.
      inversion Hruns as [|? v0 ? runs0 [b0 [Hb0 Hv0]] Hrest]; subst.
      inversion Hrest as [|? v1 ? runs1 [b1 [Hb1 Hv1]] Hnil]; subst.
      inversion Hnil; subst.
      inversion Hb0; subst b0. inversion Hv0; subst v0.
      inversion Hb1; subst b1. inversion Hv1; subst v1.
      exact H.
  - apply (proj1 (proj2 (C10_task_id_indexes_slots sample_world_mixed 1 _ 0 _ 0
                           [1%nat] wf_sample_mixed eq_refl eq_refl
                           candidates_sample_mixed))).
    simpl. lia.
  - pose proof (proj2 (proj2 (C10_task_id_indexes_slots sample_world_mixed
                                2 _ 0 _ 0 [1%nat] wf_sample_mixed eq_refl
                                eq_refl candidates_sample_mixed))) as H.
    eapply (H 3%nat _ []); [simpl; lia | reflexivity | simpl; lia].
Defined.


(** * Further properties of the constructors *)

Lemma fresh_vars_sort s a n : Forall (fun v => vsort v = s) (fresh_vars s a n).
Proof.
  apply Forall_forall. intros v Hv. now apply in_fresh_vars in Hv.
Qed.

Lemma fresh_vars_not_held w s a n v :
  wf_world w -> (next_var w <= a)%nat ->
  In v (fresh_vars s a n) -> ~ In v (all_vars w).
Proof.
  intros Hw Ha Hv Hin. apply in_fresh_vars in Hv.
  pose proof (wf_fresh _ Hw) as Hf. rewrite Forall_forall in Hf.
  specialize (Hf v Hin). lia.
Qed.

(** X1. [define_blade(num_tasks)] on a well-formed store returns a new class
    and touches nothing else: the classes made before, the blades and the
    tasks are as they were.  The class records [num_tasks] and holds
    [max(num_tasks, 0)] real variables in [cpu] and as many integer
    variables in [mem], all different from each other and from every
    variable an object of the store already holds. *)
Theorem X1_define_blade_allocates num_tasks w :
  wf_world w ->
  exists c w',
    define_blade num_tasks w = (Ok (length (classes w)), w') /\
    classes w' = classes w ++ [c] /\
    blades w' = blades w /\ tasks w' = tasks w /\
    nth_error (classes w') (length (classes w)) = Some c /\
    BladeClass.num_tasks c = num_tasks /\
    length (BladeClass.cpu c) = Z.to_nat num_tasks /\
    length (BladeClass.mem c) = Z.to_nat num_tasks /\
    Forall (fun v => vsort v = SReal) (BladeClass.cpu c) /\
    Forall (fun v => vsort v = SInt) (BladeClass.mem c) /\
    NoDup (BladeClass.cpu c ++ BladeClass.mem c) /\
    forall v, In v (BladeClass.cpu c ++ BladeClass.mem c) ->
              ~ In v (all_vars w).
Proof.
  intros Hw. exists (new_class_of num_tasks w). eexists.
  split; [apply define_blade_run|]. cbn [classes blades tasks].
  split; [reflexivity|]. split; [reflexivity|]. split; [reflexivity|].
  split; [rewrite nth_error_app2 by lia; now rewrite Nat.sub_diag|].
  unfold new_class_of. cbn [BladeClass.num_tasks BladeClass.cpu BladeClass.mem].
  split; [reflexivity|].
  split; [apply length_fresh_vars|]. split; [apply length_fresh_vars|].
  split; [apply fresh_vars_sort|]. split; [apply fresh_vars_sort|].
  split.
  - apply NoDup_app; try apply NoDup_fresh_vars.
    intros v H1 H2. apply in_fresh_vars in H1, H2.
    destruct H1 as [H1 _], H2 as [H2 _]. congruence.
  - intros v Hv. apply in_app_or in Hv. destruct Hv as [Hv|Hv].
    + eapply fresh_vars_not_held; [exact Hw| |exact Hv]. lia.
    + eapply fresh_vars_not_held; [exact Hw| |exact Hv]. lia.
Qed.

(** X2. [Blade(num_cpu, total_mem)] for a class of the store returns a new
    blade of that class with the two capacities as given (any numbers, no
    check) and a [running] array of its own: one boolean variable per slot
    of the class, all different from each other and from every variable an
    object of the store already holds.  Classes, tasks and the blades made
    before are as they were. *)
Theorem X2_Blade_init_allocates cls c num_cpu total_mem w :
  wf_world w ->
  nth_error (classes w) cls = Some c ->
  exists b w',
    Blade.__init__ cls num_cpu total_mem w = (Ok (length (blades w)), w') /\
    blades w' = blades w ++ [b] /\
    classes w' = classes w /\ tasks w' = tasks w /\
    nth_error (blades w') (length (blades w)) = Some b /\
    BladeObj.type b = cls /\
    BladeObj.num_cpu b = num_cpu /\ BladeObj.total_mem b = total_mem /\
    length (BladeObj.running b) = Z.to_nat (BladeClass.num_tasks c) /\
    Forall (fun v => vsort v = SBool) (BladeObj.running b) /\
    NoDup (BladeObj.running b) /\
    forall v, In v (BladeObj.running b) -> ~ In v (all_vars w).
Proof.
  intros Hw Hc. exists (new_blade_of cls c num_cpu total_mem w). eexists.
  split; [exact (Blade_init_run cls c num_cpu total_mem w Hc)|].
  cbn [classes blades tasks].
  split; [reflexivity|]. split; [reflexivity|]. split; [reflexivity|].
  split; [rewrite nth_error_app2 by lia; now rewrite Nat.sub_diag|].
  unfold new_blade_of.
  cbn [BladeObj.type BladeObj.num_cpu BladeObj.total_mem BladeObj.running].
  split; [reflexivity|]. split; [reflexivity|]. split; [reflexivity|].
  split; [apply length_fresh_vars|].
  split; [apply fresh_vars_sort|].
  split; [apply NoDup_fresh_vars|].
  intros v Hv. eapply fresh_vars_not_held; [exact Hw| |exact Hv]. lia.
Qed.

(** X3. The three constructors keep the store well formed: after
    [define_blade], [Blade(...)] or [Task(...)], with any arguments, every
    class still has one CPU and one memory variable per slot, every blade
    one [running] variable per slot of its class, and no variable is held
    by two places. *)
Theorem X3_constructors_keep_well_formed w :
  wf_world w ->
  (forall num_tasks, wf_world (snd (define_blade num_tasks w))) /\
  (forall cls num_cpu total_mem,
     wf_world (snd (Blade.__init__ cls num_cpu total_mem w))) /\
  (forall identifier cpu_cost mem_cost,
     wf_world (snd (Task.__init__ identifier cpu_cost mem_cost w))).
Proof.
  intros Hw. split; [|split].
  - intros n. now apply wf_define_blade.
  - intros cls q z. now apply wf_Blade_init.
  - intros i q z. now apply wf_Task_init.
Qed.

(** * Which variables the objects and their constraints share *)

Lemma NoDup_app_apart {A} (l1 l2 : list A) x :
  NoDup (l1 ++ l2) -> In x l1 -> ~ In x l2.
Proof.
  induction l1 as [|a l1 IH]; simpl; intros Hnd H1 H2; [contradiction|].
  inversion Hnd as [|? ? Ha Hrest]; subst. destruct H1 as [->|H1].
  - apply Ha. apply in_or_app. now right.
  - exact (IH Hrest H1 H2).
Qed.

Lemma running_not_cost w r b cls c v :
  wf_world w ->
  nth_error (blades w) r = Some b ->
  nth_error (classes w) cls = Some c ->
  In v (BladeObj.running b) -> ~ In v (class_vars c).
Proof.
  intros Hw Hb Hc Hv Hcv.
  pose proof (wf_distinct _ Hw) as Hnd. unfold all_vars in Hnd.
  apply (NoDup_app_apart _ _ v Hnd).
  - apply in_flat_map. exists c. split; [eapply nth_error_In; exact Hc|exact Hcv].
  - apply in_flat_map. exists b. split; [eapply nth_error_In; exact Hb|exact Hv].
Qed.

Lemma running_apart w r1 r2 b1 b2 v :
  wf_world w -> r1 <> r2 ->
  nth_error (blades w) r1 = Some b1 ->
  nth_error (blades w) r2 = Some b2 ->
  In v (BladeObj.running b1) -> ~ In v (BladeObj.running b2).
Proof.
  intros Hw Hne H1 H2.
  apply (NoDup_flat_map_apart BladeObj.running (blades w) r1 r2 b1 b2 v);
    try assumption.
  pose proof (wf_distinct _ Hw) as Hnd. unfold all_vars in Hnd.
  eapply NoDup_app_remove_l; exact Hnd.
Qed.

(** X4. In a well-formed store two different blades never share a
    [running] variable, and no [running] variable is a cost variable of any
    class: the cost variables are the only ones blades have in common. *)
Theorem X4_running_arrays_are_private w r1 r2 b1 b2 v :
  wf_world w -> r1 <> r2 ->
  nth_error (blades w) r1 = Some b1 ->
  nth_error (blades w) r2 = Some b2 ->
  In v (BladeObj.running b1) ->
  ~ In v (BladeObj.running b2) /\
  forall cls c, nth_error (classes w) cls = Some c -> ~ In v (class_vars c).
Proof.
  intros Hw Hne H1 H2 Hv. split.
  - exact (running_apart w r1 r2 b1 b2 v Hw Hne H1 H2 Hv).
  - intros cls c Hc. exact (running_not_cost w r1 b1 cls c v Hw H1 Hc Hv).
Qed.

Lemma in_vars_conds v running rsrc :
  In v (flat_map vars (conds running rsrc)) -> In v running \/ In v rsrc.
Proof.
  unfold conds. rewrite in_flat_map. intros [e [He Hv]].
  apply in_map_iff in He. destruct He as [[r x] [<- Hp]].
  simpl in Hv. destruct Hv as [<-|[<-|[]]].
  - left. eapply in_combine_l; exact Hp.
  - right. eapply in_combine_r; exact Hp.
Qed.

Lemma in_vars_capacity v b c :
  In v (vars (capacity_constraint b c)) ->
  In v (BladeObj.running b) \/ In v (class_vars c).
Proof.
  unfold capacity_constraint, class_vars. simpl.
  rewrite !app_nil_r, !in_app_iff.
  intros [H|H]; apply in_vars_conds in H; tauto.
Qed.

Lemma in_vars_global v c :
  In v (vars (global_constraint c)) <-> In v (class_vars c).
Proof.
  unfold global_constraint, class_vars. simpl.
  rewrite in_flat_map. split.
  - intros [e [He Hv]]. rewrite <- map_app in He. apply in_map_iff in He.
    destruct He as [u [<- Hu]]. simpl in Hv. destruct Hv as [<-|[]]. exact Hu.
  - intros Hv. exists (nonneg v). split; [|simpl; now left].
    rewrite <- map_app. now apply in_map.
Qed.

(** X5. The capacity constraint of a blade depends on no other blade: a
    [running] variable of a different blade does not occur in what
    [Blade.get_constraints] returns, and changing its value never changes
    whether the constraint holds. *)
Theorem X5_capacity_constraint_is_local w r1 r2 b1 b2 v :
  wf_world w -> r1 <> r2 ->
  nth_error (blades w) r1 = Some b1 ->
  nth_error (blades w) r2 = Some b2 ->
  In v (BladeObj.running b2) ->
  exists e,
    Blade.get_constraints r1 w = (Ok e, w) /\
    ~ In v (vars e) /\
    forall rho x, holds (override rho v x) e = holds rho e.
Proof.
  intros Hw Hne H1 H2 Hv.
  assert (Hbo : blade_ok (classes w) b1).
  { pose proof (wf_blades _ Hw) as H. rewrite Forall_forall in H.
    apply H. eapply nth_error_In; exact H1. }
  destruct Hbo as [c [Hc _]].
  exists (capacity_constraint b1 c).
  assert (Hfree : ~ In v (vars (capacity_constraint b1 c))).
  { intros Hin. apply in_vars_capacity in Hin. destruct Hin as [Hin|Hin].
    - exact (running_apart w r2 r1 b2 b1 v Hw (not_eq_sym Hne) H2 H1 Hv Hin).
    - exact (running_not_cost w r2 b2 _ c v Hw H2 Hc Hv Hin). }
  split; [now apply Blade_get_constraints_run|].
  split; [exact Hfree|].
  intros rho x. unfold holds. now rewrite eval_override.
Qed.

(** X6. The pool-wide constraint mentions the cost variables of its class
    and nothing else: exactly those occur in what
    [Blade.get_global_constraints] returns, so no [running] variable of any
    blade has any influence on it. *)
Theorem X6_global_constraint_ignores_running w cls c :
  wf_world w ->
  nth_error (classes w) cls = Some c ->
  exists e,
    Blade.get_global_constraints cls w = (Ok e, w) /\
    (forall v, In v (vars e) <-> In v (class_vars c)) /\
    forall r b v rho x,
      nth_error (blades w) r = Some b -> In v (BladeObj.running b) ->
      holds (override rho v x) e = holds rho e.
Proof.
  intros Hw Hc. exists (global_constraint c).
  split; [now apply get_global_constraints_run|].
  split; [intros v; apply in_vars_global|].
  intros r b v rho x Hb Hv. unfold holds. rewrite eval_override; [reflexivity|].
  intros Hin. apply in_vars_global in Hin.
  exact (running_not_cost w r b cls c v Hw Hb Hc Hv Hin).
Qed.

(** * Indexing by slot and by task id *)

Lemma getitem_denotes {A} (l : list A) i k a w :
  denotes (length l) i k -> nth_error l k = Some a ->
  getitem l i w = (Ok a, w).
Proof.
  intros [[Hi ->]|[Hi ->]] Ha; unfold getitem.
  - destruct (Z.ltb_spec i 0); [lia|].
    destruct (Z.leb_spec 0 i); [|lia].
    destruct (Z.ltb_spec i (Z.of_nat (length l))); [|lia].
    simpl. now rewrite Ha.
  - destruct (Z.ltb_spec i 0); [|lia].
    destruct (Z.leb_spec 0 (i + Z.of_nat (length l))); [|lia].
    destruct (Z.ltb_spec (i + Z.of_nat (length l)) (Z.of_nat (length l)));
      [|lia].
    simpl. rewrite Z.add_comm, Ha. reflexivity.
Qed.

Lemma getitem_out_of_range {A} (l : list A) i w :
  out_of_range (length l) i -> getitem l i w = (Raise IndexError, w).
Proof.
  intros [Hi|Hi]; unfold getitem.
  - destruct (Z.ltb_spec i 0); [|lia].
    destruct (Z.leb_spec 0 (i + Z.of_nat (length l))); [lia|]. reflexivity.
  - destruct (Z.ltb_spec i 0); [lia|].
    destruct (Z.ltb_spec i (Z.of_nat (length l))); [lia|].
    now rewrite andb_false_r.
Qed.

Lemma denotes_lt len i k : denotes len i k -> (k < len)%nat.
Proof. intros [[Hi ->]|[Hi ->]]; lia. Qed.

Lemma nth_error_lt {A} (l : list A) k :
  (k < length l)%nat -> exists a, nth_error l k = Some a.
Proof.
  intros Hk. destruct (nth_error l k) as [a|] eqn:E; [now exists a|].
  apply nth_error_None in E. lia.
Qed.

(** X7. [self._cond_cpu(i)] and [self._cond_mem(i)] read slot [i] the way
    Python indexes a list.  An index that denotes a slot, from the front or
    (negative) from the back, gives [If(running[k], cpu[k], 0)] and
    [If(running[k], mem[k], 0)] for that slot [k]; an index outside
    [-n .. n-1], where [n = max(num_tasks, 0)] is the number of slots,
    raises [IndexError] in both. *)
Theorem X7_cond_indexes_like_a_list w self b c i :
  wf_world w ->
  nth_error (blades w) self = Some b ->
  nth_error (classes w) (BladeObj.type b) = Some c ->
  let n := Z.to_nat (BladeClass.num_tasks c) in
  (forall k, denotes n i k ->
     exists r x y,
       nth_error (BladeObj.running b) k = Some r /\
       nth_error (BladeClass.cpu c) k = Some x /\
       nth_error (BladeClass.mem c) k = Some y /\
       Blade._cond_cpu self i w
       = (Ok (EIf (EVar r) (EVar x) (EConst 0)), w) /\
       Blade._cond_mem self i w
       = (Ok (EIf (EVar r) (EVar y) (EConst 0)), w)) /\
  (out_of_range n i ->
     Blade._cond_cpu self i w = (Raise IndexError, w) /\
     Blade._cond_mem self i w = (Raise IndexError, w)).
Proof.
  intros Hw Hb Hc n.
  pose proof (wf_blade_slots _ _ _ _ Hw Hb Hc) as Hrun.
  destruct (wf_class_slots _ _ _ Hw Hc) as [Hcpu Hmem].
  fold n in Hrun, Hcpu, Hmem.
  assert (Hopen : forall rsrc,
            Blade._cond self i rsrc w
            = (r <- getitem (BladeObj.running b) i ;;
               x <- getitem rsrc i ;;
               ret (sa.If (EVar r) (EVar x) (EConst 0))) w).
  { intros rsrc. unfold Blade._cond, get_blade.
    unfold bind at 1. unfold deref at 1. now rewrite Hb. }
  assert (Hcpu_open : Blade._cond_cpu self i w
                      = Blade._cond self i (BladeClass.cpu c) w).
  { unfold Blade._cond_cpu, get_blade, get_class.
    unfold bind at 1. unfold deref at 1. rewrite Hb.
    unfold bind at 1. unfold deref at 1. now rewrite Hc. }
  assert (Hmem_open : Blade._cond_mem self i w
                      = Blade._cond self i (BladeClass.mem c) w).
  { unfold Blade._cond_mem, get_blade, get_class.
    unfold bind at 1. unfold deref at 1. rewrite Hb.
    unfold bind at 1. unfold deref at 1. now rewrite Hc. }
  rewrite Hcpu_open, Hmem_open, !Hopen. split.
  - intros k Hk. pose proof (denotes_lt _ _ _ Hk) as Hlt.
    destruct (nth_error_lt (BladeObj.running b) k) as [r Hr]; [lia|].
    destruct (nth_error_lt (BladeClass.cpu c) k) as [x Hx]; [lia|].
    destruct (nth_error_lt (BladeClass.mem c) k) as [y Hy]; [lia|].
    exists r, x, y. split; [exact Hr|]. split; [exact Hx|]. split; [exact Hy|].
    split.
    + erewrite bind_Ok
        by (apply getitem_denotes with (k := k); [now rewrite Hrun|exact Hr]).
      erewrite bind_Ok
        by (apply getitem_denotes with (k := k); [now rewrite Hcpu|exact Hx]).
      reflexivity.
    + erewrite bind_Ok
        by (apply getitem_denotes with (k := k); [now rewrite Hrun|exact Hr]).
      erewrite bind_Ok
        by (apply getitem_denotes with (k := k); [now rewrite Hmem|exact Hy]).
      reflexivity.
  - intros Hout. split; apply bind_Raise; apply getitem_out_of_range;
      now rewrite Hrun.
Qed.

Lemma assign_blade_denotes w self t r b k :
  nth_error (tasks w) self = Some t ->
  nth_error (blades w) r = Some b ->
  denotes (length (BladeObj.running b)) (TaskObj.id t) k ->
  Task._assign_blade self r w
  = (Ok (EAll [EEq (EVar (running_at w k r)) ETrue]), w).
Proof.
  intros Ht Hb Hk. unfold Task._assign_blade, get_blade, get_task.
  unfold bind at 1. unfold deref at 1. rewrite Hb.
  unfold bind at 1. unfold deref at 1. rewrite Ht.
  erewrite bind_Ok.
  2:{ apply getitem_denotes with (k := k); [exact Hk|].
      apply nth_error_nth' with (d := Var SBool 0).
      exact (denotes_lt _ _ _ Hk). }
  unfold running_at. rewrite Hb. reflexivity.
Qed.

Lemma assign_blades_denotes w self t cls c bs k :
  wf_world w ->
  nth_error (tasks w) self = Some t ->
  nth_error (classes w) cls = Some c ->
  candidates w cls bs ->
  denotes (Z.to_nat (BladeClass.num_tasks c)) (TaskObj.id t) k ->
  Task._assign_blades self bs w = (Ok (placement w k bs), w).
Proof.
  intros Hw Ht Hc Hbs Hk. unfold Task._assign_blades.
  erewrite bind_Ok; [reflexivity|].
  apply mapM_Ok with
    (g := fun r => EAll [EEq (EVar (running_at w k r)) ETrue]).
  intros r Hr. unfold candidates in Hbs. rewrite Forall_forall in Hbs.
  destruct (Hbs r Hr) as [b [Hb Hty]]. subst cls.
  apply assign_blade_denotes with (t := t) (b := b); try assumption.
  now rewrite (wf_blade_slots _ _ _ _ Hw Hb Hc).
Qed.

(** X8. [Task.get_constraints] reads the task's id as a Python index into
    the slots of the pool.  For a non-empty list of candidates of one pool
    with [n] slots: an id in [0 .. n-1] binds its own slot, a negative id in
    [-n .. -1] is accepted and binds slot [n + id] (the cost variables and
    [running] variables of another task's slot), and any other id raises
    [IndexError]. *)
Theorem X8_task_id_is_a_python_index w self t cls c b0 rest :
  wf_world w ->
  nth_error (tasks w) self = Some t ->
  nth_error (classes w) cls = Some c ->
  candidates w cls (b0 :: rest) ->
  let n := Z.to_nat (BladeClass.num_tasks c) in
  (forall k, denotes n (TaskObj.id t) k ->
     exists x y,
       nth_error (BladeClass.cpu c) k = Some x /\
       nth_error (BladeClass.mem c) k = Some y /\
       Task.get_constraints self (b0 :: rest) w
       = (Ok (EAll [EEq (EVar x) (EConst (TaskObj.cpu t));
                    EEq (EVar y) (EConst (inject_Z (TaskObj.mem t)));
                    EAny (map (fun r =>
                                 EAll [EEq (EVar (running_at w k r)) ETrue])
                              (b0 :: rest))]), w)) /\
  (out_of_range n (TaskObj.id t) ->
     Task.get_constraints self (b0 :: rest) w = (Raise IndexError, w)).
Proof.
  intros Hw Ht Hc Hbs n.
  destruct (wf_class_slots _ _ _ Hw Hc) as [Hcpu Hmem].
  fold n in Hcpu, Hmem.
  pose proof Hbs as Hall. unfold candidates in Hbs.
  inversion Hbs as [|? ? [b [Hb Hty]] _]; subst.
  assert (Hopen : Task.get_constraints self (b0 :: rest) w
                  = (x <- getitem (BladeClass.cpu c) (TaskObj.id t) ;;
                     y <- getitem (BladeClass.mem c) (TaskObj.id t) ;;
                     placed <- Task._assign_blades self (b0 :: rest) ;;
                     ret (sa.all
                            [EEq (EVar x) (EConst (TaskObj.cpu t));
                             EEq (EVar y) (EConst (inject_Z (TaskObj.mem t)));
                             placed])) w).
  { unfold Task.get_constraints, get_blade, get_class, get_task.
    erewrite bind_Ok
      by (apply (getitem_nth (b0 :: rest) 0%nat); reflexivity).
    unfold bind at 1. unfold deref at 1. rewrite Hb.
    unfold bind at 1. unfold deref at 1. rewrite Hc.
    unfold bind at 1. unfold deref at 1. now rewrite Ht. }
  rewrite Hopen. split.
  - intros k Hk. pose proof (denotes_lt _ _ _ Hk) as Hlt.
    destruct (nth_error_lt (BladeClass.cpu c) k) as [x Hx]; [lia|].
    destruct (nth_error_lt (BladeClass.mem c) k) as [y Hy]; [lia|].
    exists x, y. split; [exact Hx|]. split; [exact Hy|].
    erewrite bind_Ok
      by (apply getitem_denotes with (k := k); [now rewrite Hcpu|exact Hx]).
    erewrite bind_Ok
      by (apply getitem_denotes with (k := k); [now rewrite Hmem|exact Hy]).
    erewrite bind_Ok by (eapply assign_blades_denotes; eassumption).
    reflexivity.
  - intros Hout. apply bind_Raise. apply getitem_out_of_range.
    now rewrite Hcpu.
Qed.

(** X9. [Task._assign_blades] builds one disjunct per candidate, in the
    order of the list, and the disjunction holds exactly when some
    candidate has the task's [running] variable true.  On an empty list it
    raises nothing: it returns the empty disjunction, which no assignment
    satisfies. *)
Theorem X9_assign_blades_disjunction w self t cls c bs k :
  wf_world w ->
  nth_error (tasks w) self = Some t ->
  nth_error (classes w) cls = Some c ->
  candidates w cls bs ->
  denotes (Z.to_nat (BladeClass.num_tasks c)) (TaskObj.id t) k ->
  exists disjuncts,
    Task._assign_blades self bs w = (Ok (EAny disjuncts), w) /\
    disjuncts
    = map (fun r => EAll [EEq (EVar (running_at w k r)) ETrue]) bs /\
    (forall rho,
       holds rho (EAny disjuncts) = true <->
       exists r, In r bs /\
                 value_eqb (rho (running_at w k r)) (VBool true) = true) /\
    (bs = [] -> forall rho, holds rho (EAny disjuncts) = false).
Proof.
  intros Hw Ht Hc Hbs Hk.
  exists (map (fun r => EAll [EEq (EVar (running_at w k r)) ETrue]) bs).
  split; [exact (assign_blades_denotes w self t cls c bs k Hw Ht Hc Hbs Hk)|].
  split; [reflexivity|]. split.
  - intros rho. apply (holds_placement rho w k bs).
  - intros -> rho. reflexivity.
Qed.

(** * The construction of [main] as a whole *)

Lemma mapM_exists {A B} (f : A -> M B) l w :
  (forall x, In x l -> exists y, f x w = (Ok y, w)) ->
  exists ys, mapM f l w = (Ok ys, w) /\ length ys = length l.
Proof.
  induction l as [|x l IH]; intros H; simpl.
  - exists []. split; reflexivity.
  - destruct (H x (or_introl eq_refl)) as [y Hy].
    destruct (IH (fun z Hz => H z (or_intror Hz))) as [ys [Hys Hlen]].
    exists (y :: ys). split; [|simpl; now rewrite Hlen].
    erewrite bind_Ok by exact Hy. erewrite bind_Ok by exact Hys. reflexivity.
Qed.

Lemma mapM_Raise_head {A B} (f : A -> M B) x l w e w' :
  f x w = (Raise e, w') -> mapM f (x :: l) w = (Raise e, w').
Proof. intros H. simpl. now apply bind_Raise. Qed.

Lemma built_task_lookup task_cpu task_mem (old : list TaskObj.t) k :
  (k < length task_cpu)%nat ->
  nth_error (old ++ map (task_of task_cpu task_mem)
                        (range (Z.of_nat (length task_cpu))))
            (length old + k)
  = Some (task_of task_cpu task_mem (Z.of_nat k)).
Proof.
  intros Hk. rewrite nth_error_app2 by lia.
  replace (length old + k - length old)%nat with k by lia.
  apply map_nth_error. unfold range. apply map_nth_error.
  rewrite nth_error_nth' with (d := 0%nat)
    by (rewrite length_seq; lia).
  now rewrite seq_nth by lia.
Qed.

(** X10. The construction in [main], for any values of its constants and
    started in a well-formed store, has three outcomes.  Cost lists of
    different lengths fail the assertion before anything is made.  With
    lists of one length and at least one blade (or no task at all) it
    succeeds: it returns [num_blades] blades, [1 + num_blades] resource
    constraints and one constraint per task, in a well-formed store.  With
    [num_blades <= 0] and at least one task it raises [IndexError], from
    [blades[0]] in the first task's constraints. *)
Theorem X10_build_outcome
    num_blades num_cpus total_mem task_cpu task_mem w0 :
  wf_world w0 ->
  (length task_cpu <> length task_mem ->
   build num_blades num_cpus total_mem task_cpu task_mem w0
   = (Raise AssertionError, w0)) /\
  (length task_cpu = length task_mem ->
   (0 < num_blades)%Z \/ task_cpu = [] ->
   exists bs rc tc w,
     build num_blades num_cpus total_mem task_cpu task_mem w0
     = (Ok (bs, rc, tc), w) /\
     wf_world w /\
     length bs = Z.to_nat num_blades /\
     length rc = S (Z.to_nat num_blades) /\
     length tc = length task_cpu) /\
  (length task_cpu = length task_mem ->
   (num_blades <= 0)%Z -> task_cpu <> [] ->
   exists w,
     build num_blades num_cpus total_mem task_cpu task_mem w0
     = (Raise IndexError, w)).
Proof.
  intros Hw0. split; [|split].
  - intros Hne. unfold build.
    destruct (Nat.eqb_spec (length task_cpu) (length task_mem)) as [E|E];
      [contradiction | reflexivity].
  - intros Hlen Hsome.
    destruct (build_run num_blades num_cpus total_mem task_cpu task_mem w0
                Hw0 Hlen)
      as [ts [bs [c [per [w [Hw [Hc [Hn [Hcand [Hbl [Hts [Htk [Hper Hrun]]]]]]]]]]]]].
    assert (Htc : exists tc,
               mapM (fun task => Task.get_constraints task bs) ts w
               = (Ok tc, w) /\ length tc = length ts).
    { apply mapM_exists. intros r Hr. subst ts. apply in_seq in Hr.
      set (k := (r - length (tasks w0))%nat).
      assert (Hk : (k < length task_cpu)%nat) by (unfold k; lia).
      assert (Ht : nth_error (tasks w) r
                   = Some (task_of task_cpu task_mem (Z.of_nat k))).
      { rewrite Htk. replace r with (length (tasks w0) + k)%nat
          by (unfold k; lia).
        now apply built_task_lookup. }
      destruct bs as [|b0 rest].
      - exfalso. destruct Hsome as [Hpos| ->]; simpl in *; lia.
      - destruct (Task_get_constraints_run w r _ _ c b0 rest k
                    Hw Ht Hc Hcand eq_refl) as [x [y [_ [_ Hrun']]]]; [lia|].
        eexists. exact Hrun'. }
    destruct Htc as [tc [Htc Hltc]].
    exists bs, (global_constraint c :: per), tc, w.
    split; [rewrite Hrun; erewrite bind_Ok by exact Htc; reflexivity|].
    split; [exact Hw|]. split; [exact Hbl|]. split.
    + simpl. f_equal. rewrite <- Hbl. symmetry.
      eapply Forall2_length; exact Hper.
    + rewrite Hltc, Hts. apply length_seq.
  - intros Hlen Hnb Hne.
    destruct (build_run num_blades num_cpus total_mem task_cpu task_mem w0
                Hw0 Hlen)
      as [ts [bs [c [per [w [Hw [Hc [Hn [Hcand [Hbl [Hts [Htk [Hper Hrun]]]]]]]]]]]]].
    exists w. rewrite Hrun. apply bind_Raise.
    assert (Hbs : bs = []) by (apply length_zero_iff_nil; lia).
    subst bs. destruct task_cpu as [|q qs]; [contradiction|].
    subst ts. simpl length. cbn [seq].
    apply mapM_Raise_head. apply Task_get_constraints_nil.
Qed.

Lemma make_blades_caps {A} cls c num_cpu total_mem (l : list A) w bs w' :
  wf_world w ->
  nth_error (classes w) cls = Some c ->
  mapM (fun _ => Blade.__init__ cls num_cpu total_mem) l w = (Ok bs, w') ->
  Forall (has_capacities w' num_cpu total_mem) bs.
Proof.
  revert w bs. induction l as [|x l IH]; intros w bs Hw Hc H; simpl in H.
  - inversion H. constructor.
  - apply bind_inv in H. destruct H as [r [w1 [Hr H]]].
    apply bind_inv in H. destruct H as [bs' [w2 [Hm H]]].
    inversion H. subst. clear H.
    rewrite (Blade_init_run cls c num_cpu total_mem w Hc) in Hr.
    inversion Hr. subst r. clear Hr.
    pose proof (wf_Blade_init cls num_cpu total_mem w Hw) as Hw1.
    rewrite (Blade_init_run cls c num_cpu total_mem w Hc) in Hw1.
    simpl in Hw1. rewrite H1 in Hw1.
    assert (Hc1 : nth_error (classes w1) cls = Some c)
      by (rewrite <- H1; exact Hc).
    constructor.
    + destruct (make_blades_run cls c num_cpu total_mem l w1 Hw1 Hc1)
        as [bs'' [w'' [Hm' [_ [_ [_ [[ext Hext] _]]]]]]].
      rewrite Hm in Hm'. inversion Hm'. subst bs'' w''. clear Hm'.
      exists (new_blade_of cls c num_cpu total_mem w).
      split; [|split; reflexivity].
      rewrite Hext, <- H1. simpl. rewrite <- app_assoc. simpl.
      rewrite nth_error_app2 by lia. now rewrite Nat.sub_diag.
    + exact (IH w1 bs' Hw1 Hc1 Hm).
Qed.

Lemma build_caps num_blades num_cpus total_mem task_cpu task_mem w0 bs rc tc w :
  wf_world w0 ->
  build num_blades num_cpus total_mem task_cpu task_mem w0
  = (Ok (bs, rc, tc), w) ->
  Forall (has_capacities w num_cpus total_mem) bs.
Proof.
  intros Hw0 Hb.
  assert (Hlen : length task_cpu = length task_mem).
  { unfold build in Hb.
    destruct (Nat.eqb_spec (length task_cpu) (length task_mem)) as [E|E];
      [exact E|]. cbn in Hb. discriminate Hb. }
  set (n := Z.of_nat (length task_cpu)).
  pose proof (make_tasks_run task_cpu task_mem (range n) w0) as Htasks.
  set (w1 := World (next_var w0) (classes w0) (blades w0)
                   (tasks w0 ++ map (task_of task_cpu task_mem) (range n)))
    in *.
  assert (Hw1 : wf_world w1).
  { destruct w0. eapply wf_world_tasks. exact Hw0. }
  pose proof (define_blade_run n w1) as Hdef.
  pose proof (wf_define_blade n w1 Hw1) as Hw2. rewrite Hdef in Hw2.
  simpl in Hw2, Hdef.
  set (c := new_class_of n w1) in *.
  set (w2 := World (next_var w0 + Z.to_nat n + Z.to_nat n)
                   (classes w0 ++ [c]) (blades w0)
                   (tasks w0 ++ map (task_of task_cpu task_mem) (range n)))
    in *.
  assert (Hc2 : nth_error (classes w2) (length (classes w0)) = Some c).
  { simpl. rewrite nth_error_app2 by lia. now rewrite Nat.sub_diag. }
  unfold build in Hb. rewrite <- Hlen, Nat.eqb_refl in Hb. cbn [negb] in Hb.
  fold n in Hb. unfold bind at 1 in Hb. rewrite Htasks in Hb.
  2:{ intros i Hi. apply in_range in Hi. unfold n in Hi. lia. }
  unfold bind at 1 in Hb. rewrite Hdef in Hb.
  apply bind_inv in Hb. destruct Hb as [bs' [w3 [Hm Hb]]].
  apply bind_inv in Hb. destruct Hb as [g [w4 [Hg Hb]]].
  apply bind_inv in Hb. destruct Hb as [per [w5 [Hper Hb]]].
  apply bind_inv in Hb. destruct Hb as [tc' [w6 [Htc Hb]]].
  inversion Hb. subst. clear Hb.
  pose proof (reads_Blade_get_global_constraints (length (classes w0)) w3) as R1.
  rewrite Hg in R1. simpl in R1. subst w4.
  apply mapM_inv in Hper; [|intros a; apply reads_Blade_get_constraints].
  destruct Hper as [-> _].
  apply mapM_inv in Htc; [|intros a; apply reads_Task_get_constraints].
  destruct Htc as [-> _].
  exact (make_blades_caps (length (classes w0)) c num_cpus total_mem
           (range num_blades) w2 bs w3 Hw2 Hc2 Hm).
Qed.

(** * Capacities under a satisfying assignment *)

Lemma holds_capacity_constraint rho b c :
  holds rho (capacity_constraint b c) = true <->
  (load rho (BladeObj.running b) (BladeClass.cpu c) <= BladeObj.num_cpu b
   /\ load rho (BladeObj.running b) (BladeClass.mem c)
      <= inject_Z (BladeObj.total_mem b))%Q.
Proof.
  unfold capacity_constraint, holds. cbn [eval forallb truthy map number].
  rewrite !eval_conds. cbn [total fold_right].
  rewrite andb_true_r, andb_true_iff, !Qle_bool_iff.
  rewrite Qplus_0_r. reflexivity.
Qed.

Lemma total_map_Qeq {A} (f g : A -> Q) l :
  (forall a, In a l -> (f a == g a)%Q) ->
  (total (map f l) == total (map g l))%Q.
Proof.
  induction l as [|a l IH]; intros H; simpl; [reflexivity|].
  rewrite (H a (or_introl eq_refl)), IH; [reflexivity|].
  intros x Hx. apply H. now right.
Qed.

Lemma total_filter (P : Z -> bool) (G : Z -> Q) (l : list nat) :
  (total (map G (filter P (map Z.of_nat l)))
   == total (map (fun k => if P (Z.of_nat k) then G (Z.of_nat k) else 0) l))%Q.
Proof.
  induction l as [|k l IH]; simpl; [reflexivity|].
  destruct (P (Z.of_nat k)); simpl; rewrite IH; [reflexivity|].
  now rewrite Qplus_0_l.
Qed.

(** With every cost variable bound to its declared cost, the load on a
    resource is the sum of the declared costs of the running slots. *)
Lemma load_is_demand rho (running rsrc : list var) (cost : nat -> Q) d :
  length running = length rsrc ->
  (forall k, (k < length rsrc)%nat ->
             (number (rho (nth k rsrc d)) == cost k)%Q) ->
  (load rho running rsrc
   == total (map (fun i => cost (Z.to_nat i))
                 (filter (fun i => truthy (rho (nth (Z.to_nat i) running d)))
                         (range (Z.of_nat (length rsrc))))))%Q.
Proof.
  intros Hlen Hcost. unfold load, range. rewrite Nat2Z.id.
  rewrite total_filter.
  rewrite <- (map_seq_combine
                (fun r x => if truthy (rho r) then number (rho x) else 0)
                running rsrc
                (fun k => if truthy (rho (nth k running d))
                          then number (rho (nth k rsrc d)) else 0) 0 Hlen).
  - rewrite Hlen. apply total_map_Qeq. intros k Hk. apply in_seq in Hk.
    rewrite Nat2Z.id. destruct (truthy (rho (nth k running d)));
      [apply Hcost; lia | reflexivity].
  - intros k r x Hr Hx. simpl.
    now rewrite (nth_error_nth _ _ d Hr), (nth_error_nth _ _ d Hx).
Qed.

(** Under an assignment that satisfies the constraints of all tasks, every
    cost variable has the declared cost of its task. *)
Lemma costs_bound rho w cls c b0 rest (old : list TaskObj.t)
    task_cpu task_mem tc d :
  wf_world w ->
  nth_error (classes w) cls = Some c ->
  BladeClass.num_tasks c = Z.of_nat (length task_cpu) ->
  candidates w cls (b0 :: rest) ->
  tasks w = old ++ map (task_of task_cpu task_mem)
                       (range (Z.of_nat (length task_cpu))) ->
  Forall2 (fun task e =>
             Task.get_constraints task (b0 :: rest) w = (Ok e, w))
          (seq (length old) (length task_cpu)) tc ->
  Forall (fun e => holds rho e = true) tc ->
  forall k, (k < length task_cpu)%nat ->
    (number (rho (nth k (BladeClass.cpu c) d)) == nth k task_cpu 0)%Q /\
    (number (rho (nth k (BladeClass.mem c) d))
     == inject_Z (nth k task_mem 0%Z))%Q.
Proof.
  intros Hw Hc Hn Hcand Htk Htc Hsat k Hk.
  assert (Hts : nth_error (seq (length old) (length task_cpu)) k
                = Some (length old + k)%nat).
  { rewrite nth_error_nth' with (d := 0%nat) by now rewrite length_seq.
    now rewrite seq_nth. }
  destruct (Forall2_nth_error _ _ _ _ _ Htc Hts) as [e [He Hrun]].
  rewrite Forall_forall in Hsat.
  specialize (Hsat e (nth_error_In _ _ He)).
  assert (Ht : nth_error (tasks w) (length old + k)
               = Some (task_of task_cpu task_mem (Z.of_nat k))).
  { rewrite Htk. now apply built_task_lookup. }
  destruct (Task_get_constraints_run w _ _ cls c b0 rest k
              Hw Ht Hc Hcand eq_refl) as [x [y [Hx [Hy Hrun']]]]; [lia|].
  rewrite Hrun' in Hrun. inversion Hrun. subst e. clear Hrun.
  rewrite holds_EAll in Hsat. cbn [forallb] in Hsat.
  rewrite !holds_EEq_num in Hsat.
  apply andb_true_iff in Hsat. destruct Hsat as [H1 Hsat].
  apply andb_true_iff in Hsat. destruct Hsat as [H2 _].
  apply Qeq_bool_iff in H1, H2.
  rewrite (nth_error_nth _ _ d Hx), (nth_error_nth _ _ d Hy).
  unfold task_of in H1, H2. cbn [TaskObj.cpu TaskObj.mem] in H1, H2.
  rewrite Nat2Z.id in H1, H2. split; assumption.
Qed.

(** X11. Whatever assignment satisfies the constraints [main] constructs,
    the tasks the interpreter reports for a blade fit on it: for every
    blade, the declared CPU costs of the task ids in its sequence add up to
    at most [num_cpus_per_blade], and their declared memory costs to at
    most [total_mem_per_blade]. *)
Theorem X11_reported_tasks_fit
    num_blades num_cpus total_mem task_cpu task_mem w0 bs rc tc w rho :
  wf_world w0 ->
  build num_blades num_cpus total_mem task_cpu task_mem w0
  = (Ok (bs, rc, tc), w) ->
  Forall (fun e => holds rho e = true) (rc ++ tc) ->
  exists out,
    worked_per_blade rho bs (Z.of_nat (length task_cpu)) w = (Ok out, w) /\
    length out = length bs /\
    forall ids, In ids out ->
      (total (map (fun i => nth (Z.to_nat i) task_cpu 0) ids) <= num_cpus)%Q /\
      (total (map (fun i => inject_Z (nth (Z.to_nat i) task_mem 0%Z)) ids)
       <= inject_Z total_mem)%Q.
Proof.
  intros Hw0 Hb Hsat.
  pose proof (build_caps _ _ _ _ _ _ _ _ _ _ Hw0 Hb) as Hcaps.
  destruct (build_inv _ _ _ _ _ _ _ _ _ _ Hw0 Hb)
    as [c [per [Hw [Hc [Hn [Hcand [Hbl [Htk [Hper [Hrc Htc]]]]]]]]]].
  apply Forall_app in Hsat. destruct Hsat as [Hres Htasks].
  rewrite <- Hn.
  exists (map (worked_on rho w (BladeClass.num_tasks c)) bs).
  split; [now apply worked_per_blade_run with (cls := length (classes w0))|].
  split; [apply length_map|].
  intros ids Hids. apply in_map_iff in Hids. destruct Hids as [blade [<- Hin]].
  destruct bs as [|b0 rest]; [contradiction|].
  pose proof Hcand as Hall. unfold candidates in Hcand.
  rewrite Forall_forall in Hcand, Hcaps.
  destruct (Hcand blade Hin) as [b [Hb' Hty]].
  destruct (Hcaps blade Hin) as [b' [Hb'' [Hcpu Hmem]]].
  rewrite Hb' in Hb''. inversion Hb''. subst b'. clear Hb''.
  assert (Hcb : nth_error (classes w) (BladeObj.type b) = Some c)
    by (rewrite Hty; exact Hc).
  pose proof (wf_blade_slots _ _ _ _ Hw Hb' Hcb) as Hrun.
  destruct (wf_class_slots _ _ _ Hw Hc) as [Hlc Hlm].
  assert (Hcap : holds rho (capacity_constraint b c) = true).
  { destruct (In_nth_error _ _ Hin) as [k Hk].
    destruct (Forall2_nth_error _ _ _ _ _ Hper Hk) as [e [He [b2 [Hb2 ->]]]].
    rewrite Hb' in Hb2. inversion Hb2. subst b2.
    rewrite Forall_forall in Hres. apply Hres. rewrite Hrc. right.
    eapply nth_error_In; exact He. }
  apply holds_capacity_constraint in Hcap. destruct Hcap as [Hcap1 Hcap2].
  assert (Hlen : length task_cpu = Z.to_nat (BladeClass.num_tasks c))
    by (rewrite Hn; now rewrite Nat2Z.id).
  set (d := Var SBool 0).
  assert (Hbound := costs_bound rho w _ c b0 rest (tasks w0)
                      task_cpu task_mem tc d Hw Hc Hn Hall Htk Htc Htasks).
  assert (Hids : worked_on rho w (BladeClass.num_tasks c) blade
                 = filter (fun i => truthy
                                      (rho (nth (Z.to_nat i)
                                                (BladeObj.running b) d)))
                          (range (BladeClass.num_tasks c))).
  { unfold worked_on. apply filter_ext. intros i.
    unfold running_at. now rewrite Hb'. }
  rewrite Hids. split.
  - rewrite <- Hcpu.
    rewrite (load_is_demand rho (BladeObj.running b) (BladeClass.cpu c)
               (fun k => nth k task_cpu 0) d) in Hcap1.
    + replace (Z.of_nat (length (BladeClass.cpu c)))
        with (BladeClass.num_tasks c) in Hcap1 by lia.
      exact Hcap1.
    + congruence.
    + intros k Hk. apply Hbound. lia.
  - rewrite <- Hmem.
    rewrite (load_is_demand rho (BladeObj.running b) (BladeClass.mem c)
               (fun k => inject_Z (nth k task_mem 0%Z)) d) in Hcap2.
    + replace (Z.of_nat (length (BladeClass.mem c)))
        with (BladeClass.num_tasks c) in Hcap2 by lia.
      exact Hcap2.
    + congruence.
    + intros k Hk. apply Hbound. lia.
Qed.

(** * [main] around the solver *)

(** X12. [main] adds no failure of its own around the solver.  Once the
    construction has succeeded: if the solver raises, [main] raises the same
    exception; if it returns an allocation and a count and leaves the store
    alone, [main] returns that very count together with one sequence per
    blade, the ids of [range(num_tasks)] whose [running] variable on that
    blade is true in the allocation. *)
Theorem X12_main_around_the_solver
    (allocate : list expr -> list expr -> M (assignment * Z))
    num_blades num_cpus total_mem task_cpu task_mem w0 bs rc tc w :
  wf_world w0 ->
  build num_blades num_cpus total_mem task_cpu task_mem w0
  = (Ok (bs, rc, tc), w) ->
  (forall e w',
     allocate rc tc w = (Raise e, w') ->
     run allocate num_blades num_cpus total_mem task_cpu task_mem w0
     = (Raise e, w')) /\
  (forall alloc worked,
     allocate rc tc w = (Ok (alloc, worked), w) ->
     run allocate num_blades num_cpus total_mem task_cpu task_mem w0
     = (Ok (worked,
            map (fun blade =>
                   filter (fun i => truthy
                                      (alloc (running_at w (Z.to_nat i) blade)))
                          (range (Z.of_nat (length task_cpu))))
                bs), w)).
Proof.
  intros Hw0 Hb.
  destruct (build_inv _ _ _ _ _ _ _ _ _ _ Hw0 Hb)
    as [c [per [Hw [Hc [Hn [Hcand _]]]]]].
  split.
  - intros e w' Ha. unfold run. erewrite bind_Ok by exact Hb.
    cbn beta iota. now apply bind_Raise.
  - intros alloc worked Ha. unfold run. erewrite bind_Ok by exact Hb.
    cbn beta iota. erewrite bind_Ok by exact Ha. cbn beta iota.
    rewrite <- Hn.
    erewrite bind_Ok
      by (apply worked_per_blade_run with (cls := length (classes w0));
          assumption).
    reflexivity.
Qed.

(** * Demand against the capacity of the whole pool *)

Lemma total_zeros {A} (l : list A) : (total (map (fun _ => 0) l) == 0)%Q.
Proof.
  induction l as [|a l IH]; simpl; [reflexivity|].
  rewrite IH. reflexivity.
Qed.

Lemma total_map_le {A} (f g : A -> Q) l :
  (forall a, In a l -> (f a <= g a)%Q) ->
  (total (map f l) <= total (map g l))%Q.
Proof.
  induction l as [|a l IH]; intros H; simpl; [apply Qle_refl|].
  apply Qplus_le_compat.
  - apply H. now left.
  - apply IH. intros x Hx. apply H. now right.
Qed.

Lemma total_map_plus {A} (f g : A -> Q) l :
  (total (map (fun a => f a + g a) l)
   == total (map f l) + total (map g l))%Q.
Proof.
  induction l as [|a l IH]; simpl; [reflexivity|].
  rewrite IH. ring.
Qed.

Lemma total_map_bound {A} (f : A -> Q) (cap : Q) l :
  (forall a, In a l -> (f a <= cap)%Q) ->
  (total (map f l) <= inject_Z (Z.of_nat (length l)) * cap)%Q.
Proof.
  induction l as [|a l IH]; intros H.
  - simpl. rewrite Qmult_0_l. apply Qle_refl.
  - cbn [map total fold_right length]. rewrite Nat2Z.inj_succ.
    unfold Z.succ. rewrite inject_Z_plus. rewrite Qmult_plus_distr_l.
    rewrite Qmult_1_l. rewrite Qplus_comm.
    apply Qplus_le_compat.
    + apply IH. intros x Hx. apply H. now right.
    + apply H. now left.
Qed.

(** Slots that are each switched on somewhere, with costs that are not
    negative, cost no more in total than what the places carry together. *)
Lemma total_covered {J} (on : J -> nat -> bool) (c : nat -> Q) (js : list J)
    (l : list nat) :
  (forall k, In k l -> (0 <= c k)%Q) ->
  (total (map (fun k => if existsb (fun j => on j k) js then c k else 0) l)
   <= total (map (fun j => total (map (fun k => if on j k then c k else 0) l))
                 js))%Q.
Proof.
  intros Hc. induction js as [|j js IH]; cbn [existsb map total fold_right].
  - rewrite total_zeros. apply Qle_refl.
  - eapply Qle_trans; [|apply Qplus_le_compat; [apply Qle_refl | exact IH]].
    rewrite <- total_map_plus. apply total_map_le. intros k Hk.
    specialize (Hc k Hk).
    destruct (on j k), (existsb (fun j0 => on j0 k) js); simpl.
    + rewrite <- (Qplus_0_r (c k)) at 1.
      apply Qplus_le_compat; [apply Qle_refl | exact Hc].
    + rewrite Qplus_0_r. apply Qle_refl.
    + rewrite Qplus_0_l. apply Qle_refl.
    + rewrite Qplus_0_l. apply Qle_refl.
Qed.

Lemma load_by_slot rho (running rsrc : list var) d :
  length running = length rsrc ->
  load rho running rsrc
  = total (map (fun k => if truthy (rho (nth k running d))
                         then number (rho (nth k rsrc d)) else 0)
               (seq 0 (length rsrc))).
Proof.
  intros Hlen. unfold load. f_equal. rewrite <- Hlen. symmetry.
  apply (map_seq_combine
           (fun r x => if truthy (rho r) then number (rho x) else 0)
           running rsrc _ 0 Hlen).
  intros k r x Hr Hx. simpl.
  now rewrite (nth_error_nth _ _ d Hr), (nth_error_nth _ _ d Hx).
Qed.

(** One resource of the pool: if every blade's load fits its capacity,
    every cost variable has its declared, non-negative cost, and every slot
    runs on some blade, the declared costs fit the pool as a whole. *)
Lemma demand_within_pool rho w (bs : list nat) (rsrc : list var)
    (cost : list Q) (cap : Q) :
  let d := Var SBool 0 in
  (forall blade, In blade bs ->
     exists b, nth_error (blades w) blade = Some b /\
               length (BladeObj.running b) = length rsrc /\
               (load rho (BladeObj.running b) rsrc <= cap)%Q) ->
  length cost = length rsrc ->
  (forall k, (k < length rsrc)%nat ->
             (number (rho (nth k rsrc d)) == nth k cost 0)%Q) ->
  (forall k, (k < length rsrc)%nat -> (0 <= nth k cost 0)%Q) ->
  (forall k, (k < length rsrc)%nat ->
             exists blade, In blade bs /\
                           truthy (rho (running_at w k blade)) = true) ->
  (total cost <= inject_Z (Z.of_nat (length bs)) * cap)%Q.
Proof.
  intros d Hload Hlen Hcost Hpos Hcover.
  set (n := length rsrc) in *.
  set (c := fun k => nth k cost 0).
  set (on := fun blade k => truthy (rho (running_at w k blade))).
  assert (Hsum : total cost = total (map c (seq 0 n))).
  { f_equal. rewrite <- Hlen. rewrite <- (map_id cost) at 1. symmetry.
    apply map_seq_nth. intros k a Ha. unfold c. simpl.
    now rewrite (nth_error_nth _ _ 0 Ha). }
  rewrite Hsum.
  eapply Qle_trans; [|apply total_map_bound with
    (f := fun blade => total (map (fun k => if on blade k then c k else 0)
                                  (seq 0 n)))].
  - eapply Qle_trans; [|apply total_covered].
    + apply Qle_lteq. right. apply total_map_Qeq. intros k Hk.
      apply in_seq in Hk.
      destruct (Hcover k ltac:(lia)) as [blade [Hin Hon]].
      assert (Hex : existsb (fun j => on j k) bs = true).
      { apply existsb_exists. exists blade. split; assumption. }
      rewrite Hex. reflexivity.
    + intros k Hk. apply in_seq in Hk. apply Hpos. lia.
  - intros blade Hin. destruct (Hload blade Hin) as [b [Hb [Hrun Hle]]].
    rewrite (load_by_slot rho _ _ d Hrun) in Hle. fold n in Hle.
    eapply Qle_trans; [|exact Hle].
    apply Qle_lteq. right. apply total_map_Qeq. intros k Hk.
    apply in_seq in Hk. unfold on, running_at. rewrite Hb. fold d.
    destruct (truthy (rho (nth k (BladeObj.running b) d)));
      [|reflexivity].
    unfold c. symmetry. apply Hcost. lia.
Qed.

Lemma pool_bounds
    num_blades num_cpus total_mem task_cpu task_mem w0 bs rc tc w rho :
  wf_world w0 ->
  build num_blades num_cpus total_mem task_cpu task_mem w0
  = (Ok (bs, rc, tc), w) ->
  Forall (fun e => holds rho e = true) (rc ++ tc) ->
  (total task_cpu <= inject_Z (Z.of_nat (length bs)) * num_cpus)%Q /\
  (total (map inject_Z task_mem)
   <= inject_Z (Z.of_nat (length bs)) * inject_Z total_mem)%Q.
Proof.
  intros Hw0 Hb Hsat.
  assert (Hlen : length task_cpu = length task_mem).
  { unfold build in Hb.
    destruct (Nat.eqb_spec (length task_cpu) (length task_mem)) as [E|E];
      [exact E|]. cbn in Hb. discriminate Hb. }
  pose proof (build_caps _ _ _ _ _ _ _ _ _ _ Hw0 Hb) as Hcaps.
  destruct (build_inv _ _ _ _ _ _ _ _ _ _ Hw0 Hb)
    as [c [per [Hw [Hc [Hn [Hcand [Hbl [Htk [Hper [Hrc Htc]]]]]]]]]].
  apply Forall_app in Hsat. destruct Hsat as [Hres Htasks].
  destruct bs as [|b0 rest].
  - assert (Hnil : task_cpu = []).
    { destruct task_cpu as [|q qs]; [reflexivity|].
      simpl in Htc. inversion Htc as [|r e ? ? Hr _]; subst.
      rewrite Task_get_constraints_nil in Hr. discriminate Hr. }
    subst task_cpu. destruct task_mem; [|discriminate Hlen].
    simpl. rewrite !Qmult_0_l. split; apply Qle_refl.
  - set (bs := b0 :: rest) in *.
    set (d := Var SBool 0).
    destruct (wf_class_slots _ _ _ Hw Hc) as [Hlc Hlm].
    assert (Hnn : Z.to_nat (BladeClass.num_tasks c) = length task_cpu)
      by (rewrite Hn; apply Nat2Z.id).
    assert (Hbound := costs_bound rho w _ c b0 rest (tasks w0)
                        task_cpu task_mem tc d Hw Hc Hn Hcand Htk Htc Htasks).
    assert (Hglobal : forall v, In v (class_vars c) -> (0 <= number (rho v))%Q).
    { apply holds_global_constraint. rewrite Forall_forall in Hres.
      apply Hres. rewrite Hrc. now left. }
    assert (Hloads : forall blade, In blade bs ->
              exists b, nth_error (blades w) blade = Some b /\
                        length (BladeObj.running b) = length task_cpu /\
                        (load rho (BladeObj.running b) (BladeClass.cpu c)
                         <= num_cpus)%Q /\
                        (load rho (BladeObj.running b) (BladeClass.mem c)
                         <= inject_Z total_mem)%Q).
    { intros blade Hin. pose proof Hcand as Hall. unfold candidates in Hall.
      rewrite Forall_forall in Hall, Hcaps.
      destruct (Hall blade Hin) as [b [Hb' Hty]].
      destruct (Hcaps blade Hin) as [b' [Hb'' [Hcpu Hmem]]].
      rewrite Hb' in Hb''. inversion Hb''. subst b'. clear Hb''.
      assert (Hcb : nth_error (classes w) (BladeObj.type b) = Some c)
        by (rewrite Hty; exact Hc).
      exists b. split; [exact Hb'|].
      split; [rewrite (wf_blade_slots _ _ _ _ Hw Hb' Hcb); exact Hnn|].
      rewrite <- Hcpu, <- Hmem. apply holds_capacity_constraint.
      destruct (In_nth_error _ _ Hin) as [k Hk].
      destruct (Forall2_nth_error _ _ _ _ _ Hper Hk) as [e [He [b2 [Hb2 ->]]]].
      rewrite Hb' in Hb2. inversion Hb2. subst b2.
      rewrite Forall_forall in Hres. apply Hres. rewrite Hrc. right.
      eapply nth_error_In; exact He. }
    assert (Hcover : forall k, (k < length task_cpu)%nat ->
              exists blade, In blade bs /\
                            truthy (rho (running_at w k blade)) = true).
    { intros k Hk.
      assert (Hts : nth_error (seq (length (tasks w0)) (length task_cpu)) k
                    = Some (length (tasks w0) + k)%nat).
      { rewrite nth_error_nth' with (d := 0%nat) by now rewrite length_seq.
        now rewrite seq_nth. }
      destruct (Forall2_nth_error _ _ _ _ _ Htc Hts) as [e [He Hrun]].
      rewrite Forall_forall in Htasks.
      specialize (Htasks e (nth_error_In _ _ He)).
      assert (Ht : nth_error (tasks w) (length (tasks w0) + k)
                   = Some (task_of task_cpu task_mem (Z.of_nat k))).
      { rewrite Htk. now apply built_task_lookup. }
      destruct (placed_on_a_candidate rho w _ c bs _ _ k e
                  Hw Hc Hcand Ht eq_refl ltac:(lia) Hrun Htasks)
        as [r [Hr Hin]].
      exists r. split; [exact Hr|].
      unfold worked_on in Hin. apply filter_In in Hin.
      destruct Hin as [_ Hin]. now rewrite Nat2Z.id in Hin. }
    split.
    + apply (demand_within_pool rho w bs (BladeClass.cpu c) task_cpu num_cpus).
      * intros blade Hin. destruct (Hloads blade Hin) as [b [H1 [H2 [H3 _]]]].
        exists b. split; [exact H1|]. split; [congruence | exact H3].
      * congruence.
      * intros k Hk. apply Hbound. lia.
      * intros k Hk. destruct (Hbound k ltac:(lia)) as [E _].
        rewrite <- E. apply Hglobal. unfold class_vars. apply in_or_app.
        left. apply nth_In. lia.
      * intros k Hk. apply Hcover. lia.
    + apply (demand_within_pool rho w bs (BladeClass.mem c)
               (map inject_Z task_mem) (inject_Z total_mem)).
      * intros blade Hin. destruct (Hloads blade Hin) as [b [H1 [H2 [_ H3]]]].
        exists b. split; [exact H1|]. split; [congruence | exact H3].
      * rewrite length_map. congruence.
      * intros k Hk. destruct (Hbound k ltac:(lia)) as [_ E].
        change 0%Q with (inject_Z 0). rewrite map_nth. exact E.
      * intros k Hk. destruct (Hbound k ltac:(lia)) as [_ E].
        change 0%Q with (inject_Z 0). rewrite map_nth.
        rewrite <- E. apply Hglobal. unfold class_vars. apply in_or_app.
        right. apply nth_In. lia.
      * intros k Hk. apply Hcover. lia.
Qed.

(** X13. The constraints [main] constructs make every task run somewhere and
    keep every blade within its capacities, so they can only be satisfied
    when the tasks fit the pool as a whole: if the declared CPU costs add up
    to more than [num_blades * num_cpus_per_blade], or the declared memory
    costs to more than [num_blades * total_mem_per_blade], no assignment
    satisfies all of them. *)
Theorem X13_overcommitted_pool_is_unsatisfiable
    num_blades num_cpus total_mem task_cpu task_mem w0 bs rc tc w :
  wf_world w0 ->
  build num_blades num_cpus total_mem task_cpu task_mem w0
  = (Ok (bs, rc, tc), w) ->
  (inject_Z (Z.of_nat (length bs)) * num_cpus < total task_cpu)%Q \/
  (inject_Z (Z.of_nat (length bs)) * inject_Z total_mem
   < total (map inject_Z task_mem))%Q ->
  forall rho, ~ Forall (fun e => holds rho e = true) (rc ++ tc).
Proof.
  intros Hw0 Hb Hover rho Hsat.
  destruct (pool_bounds _ _ _ _ _ _ _ _ _ _ rho Hw0 Hb Hsat) as [H1 H2].
  destruct Hover as [H|H].
  - exact (Qlt_not_le _ _ H H1).
  - exact (Qlt_not_le _ _ H H2).
Qed.

(** * Concrete instances *)

Lemma wf_sample_neg : wf_world sample_world_neg.
Proof. apply wf_Task_init, wf_sample. Qed.

Lemma candidates_sample_neg : candidates sample_world_neg 0 [0; 1]%nat.
Proof. repeat constructor; eexists; split; reflexivity. Qed.

Lemma main_build_run :
  build 4 8 128 task_cpu task_mem empty_world
  = (Ok (fst (fst (fst main_built)), snd (fst (fst main_built)),
         snd (fst main_built)),
     snd main_built).
Proof. vm_compute. reflexivity. Qed.

Lemma X1_witness :
  exists c w',
    define_blade 3 empty_world = (Ok 0%nat, w') /\
    classes w' = [c] /\
    length (BladeClass.cpu c) = 3%nat /\ length (BladeClass.mem c) = 3%nat /\
    NoDup (BladeClass.cpu c ++ BladeClass.mem c).
Proof.
  destruct (X1_define_blade_allocates 3 empty_world wf_empty)
    as [c [w' [H [Hc [_ [_ [_ [_ [H1 [H2 [_ [_ [H3 _]]]]]]]]]]]]].
  exists c, w'. split; [exact H|]. split; [exact Hc|].
  split; [exact H1|]. split; [exact H2 | exact H3].
Defined.

Lemma X2_witness :
  exists b w',
    Blade.__init__ 0 8 128 (snd (define_blade 2 empty_world))
    = (Ok 0%nat, w') /\
    blades w' = [b] /\
    BladeObj.num_cpu b = 8 /\ BladeObj.total_mem b = 128%Z /\
    length (BladeObj.running b) = 2%nat.
Proof.
  destruct (X2_Blade_init_allocates 0 _ 8 128 (snd (define_blade 2 empty_world))
              (wf_define_blade 2 empty_world wf_empty) eq_refl)
    as [b [w' [H [Hb [_ [_ [_ [_ [H1 [H2 [H3 _]]]]]]]]]]].
  exists b, w'. split; [exact H|]. split; [exact Hb|].
  split; [exact H1|]. split; [exact H2 | exact H3].
Defined.

Lemma X3_witness :
  wf_world (snd (define_blade 2 empty_world)) /\
  wf_world (snd (Blade.__init__ 0 8 128 empty_world)) /\
  wf_world (snd (Task.__init__ 7 1 1 empty_world)).
Proof.
  destruct (X3_constructors_keep_well_formed empty_world wf_empty)
    as [H1 [H2 H3]].
  split; [apply H1|]. split; [apply H2 | apply H3].
Defined.

Lemma X4_witness :
  ~ In (Var SBool 4) [Var SBool 6; Var SBool 7] /\
  ~ In (Var SBool 4)
       [Var SReal 0; Var SReal 1; Var SInt 2; Var SInt 3].
Proof.
  assert (Hne : 0%nat <> 1%nat) by discriminate.
  destruct (X4_running_arrays_are_private sample_world 0 1 _ _ (Var SBool 4)
              wf_sample Hne eq_refl eq_refl (or_introl eq_refl))
    as [H1 H2].
  split; [exact H1|]. exact (H2 0%nat _ eq_refl).
Defined.

Lemma X5_witness :
  exists e,
    Blade.get_constraints 0 sample_world = (Ok e, sample_world) /\
    ~ In (Var SBool 6) (vars e) /\
    forall rho x, holds (override rho (Var SBool 6) x) e = holds rho e.
Proof.
  assert (Hne : 0%nat <> 1%nat) by discriminate.
  exact (X5_capacity_constraint_is_local sample_world 0 1 _ _ (Var SBool 6)
           wf_sample Hne eq_refl eq_refl (or_introl eq_refl)).
Defined.

Lemma X6_witness :
  exists e,
    Blade.get_global_constraints 0 sample_world = (Ok e, sample_world) /\
    forall v, In v (vars e) <->
              In v [Var SReal 0; Var SReal 1; Var SInt 2; Var SInt 3].
Proof.
  destruct (X6_global_constraint_ignores_running sample_world 0 _
              wf_sample eq_refl) as [e [H [Hv _]]].
  exists e. split; [exact H | exact Hv].
Defined.

Lemma X7_witness :
  Blade._cond_cpu 0 (-1) sample_world
  = (Ok (EIf (EVar (Var SBool 5)) (EVar (Var SReal 1)) (EConst 0)),
     sample_world) /\
  Blade._cond_mem 0 2 sample_world = (Raise IndexError, sample_world).
Proof.
  split.
  - destruct (proj1 (X7_cond_indexes_like_a_list sample_world 0 _ _ (-1)
                       wf_sample eq_refl eq_refl) 1%nat)
      as [r [x [y [Hr [Hx [_ [H _]]]]]]].
    + right. simpl. split; [lia | reflexivity].
    + inversion Hr. inversion Hx. subst. exact H.
  - apply (proj2 (X7_cond_indexes_like_a_list sample_world 0 _ _ 2
                    wf_sample eq_refl eq_refl)).
    right. simpl. lia.
Defined.

Lemma X8_witness :
  exists x y,
    nth_error [Var SReal 0; Var SReal 1] 1 = Some x /\
    nth_error [Var SInt 2; Var SInt 3] 1 = Some y /\
    Task.get_constraints 2 [0; 1]%nat sample_world_neg
    = (Ok (EAll [EEq (EVar x) (EConst 3);
                 EEq (EVar y) (EConst (inject_Z 3));
                 EAny (map (fun r =>
                              EAll [EEq (EVar (running_at sample_world_neg 1 r))
                                        ETrue])
                           [0; 1]%nat)]),
       sample_world_neg).
Proof.
  apply (proj1 (X8_task_id_is_a_python_index sample_world_neg 2 _ 0 _ 0
                  [1%nat] wf_sample_neg eq_refl eq_refl
                  candidates_sample_neg) 1%nat).
  right. simpl. split; [lia | reflexivity].
Defined.

Lemma X9_witness :
  exists disjuncts,
    Task._assign_blades 0 [] sample_world = (Ok (EAny disjuncts), sample_world)
    /\ disjuncts = [] /\
    forall rho, holds rho (EAny disjuncts) = false.
Proof.
  destruct (X9_assign_blades_disjunction sample_world 0 _ 0 _ [] 0
              wf_sample eq_refl eq_refl (Forall_nil _))
    as [ds [H [Hd [_ Hempty]]]].
  - left. simpl. split; [lia | reflexivity].
  - exists ds. split; [exact H|]. split; [exact Hd|]. exact (Hempty eq_refl).
Defined.

Lemma X10_witness :
  (exists bs rc tc w,
     build 2 8 128 [1%Q] [1%Z] empty_world = (Ok (bs, rc, tc), w) /\
     length bs = 2%nat /\ length rc = 3%nat /\ length tc = 1%nat) /\
  build 2 8 128 [1%Q] [] empty_world = (Raise AssertionError, empty_world) /\
  (exists w, build 0 8 128 [1%Q] [1%Z] empty_world = (Raise IndexError, w)).
Proof.
  split; [|split].
  - destruct (proj1 (proj2 (X10_build_outcome 2 8 128 [1%Q] [1%Z] empty_world
                              wf_empty)) eq_refl)
      as [bs [rc [tc [w [H [_ [H1 [H2 H3]]]]]]]].
    + left. lia.
    + exists bs, rc, tc, w. split; [exact H|].
      split; [exact H1|]. split; [exact H2 | exact H3].
  - apply (proj1 (X10_build_outcome 2 8 128 [1%Q] [] empty_world wf_empty)).
    discriminate.
  - apply (proj2 (proj2 (X10_build_outcome 0 8 128 [1%Q] [1%Z] empty_world
                           wf_empty)) eq_refl); [lia | discriminate].
Defined.

Lemma X11_witness :
  exists out,
    worked_per_blade all_on (fst (fst (fst sample_built))) 1
                     (snd sample_built)
    = (Ok out, snd sample_built) /\
    forall ids, In ids out ->
      (total (map (fun i => nth (Z.to_nat i) [1%Q] 0) ids) <= 8)%Q.
Proof.
  destruct (X11_reported_tasks_fit 2 8 128 [1%Q] [1%Z] empty_world
              _ _ _ _ all_on wf_empty sample_build_run sample_satisfied)
    as [out [H [_ Hfit]]].
  exists out. split; [exact H|]. intros ids Hids. exact (proj1 (Hfit ids Hids)).
Defined.

Lemma X12_witness :
  exists out,
    main constant_solver empty_world = (Ok (0%Z, out), snd main_built) /\
    length out = 4%nat.
Proof.
  eexists. split.
  - apply (proj2 (X12_main_around_the_solver constant_solver 4 8 128
                    task_cpu task_mem empty_world _ _ _ _
                    wf_empty main_build_run) all_on 0%Z).
    reflexivity.
  - reflexivity.
Defined.

Lemma X13_witness :
  (inject_Z 4 * 8 < total task_cpu)%Q /\
  ~ exists rho,
      Forall (fun e => holds rho e = true)
             (snd (fst (fst main_built)) ++ snd (fst main_built)).
Proof.
  assert (Hover : (inject_Z 4 * 8 < total task_cpu)%Q)
    by (vm_compute; reflexivity).
  split; [exact Hover|]. intros [rho Hsat].
  exact (X13_overcommitted_pool_is_unsatisfiable 4 8 128 task_cpu task_mem
           empty_world _ _ _ _ wf_empty main_build_run (or_introl Hover)
           rho Hsat).
Defined.
